(** * Optimizer, loss and model abstractions of [04_Optimizer_Loss.ipynb]

    The notebook trains a one-variable linear regression with PyTorch and
    rewrites the same training loop four times: with hand-written updates
    replaced by [optim.SGD] (cell 4), the hand-written loss replaced by
    [nn.MSELoss] (cell 6), the hand-written prediction replaced by an
    [nn.Module] (cell 10) and the loop body replaced by the closure built by
    [make_train_step] (cell 18).

    The notebook's own code is embedded statement by statement.  The
    framework calls it makes are embedded as a small model of PyTorch:
    tensors live in a heap indexed by object identity, a computed tensor
    carries its backward function, and the arithmetic on tensor elements
    is a parameter ([Scalar]) on which no law is assumed, so that every
    theorem that does not name a law holds for any rounding arithmetic as
    well as for exact numbers.  Two arithmetics are given: the rationals,
    on which the sessions are run exactly, and IEEE single precision, the
    dtype of the notebook's tensors, on which rounding shows.  Tensors of
    shape (N,1) are kept as flat lists of N elements and tensors of shape
    (1,) as one-element lists; the notebook has no others.  The training data [x_train_tensor] and [y_train_tensor], which the
    notebook gets from [generate_data.py], and the random initial values of
    the parameters are whatever the heap holds for them. *)

From Stdlib Require Import QArith Qreduction SpecFloat.
From stdpp Require Import gmap list.

(** ** Element arithmetic *)

(** The operations PyTorch applies to tensor elements.  [fmadd p alpha d] is
    the element operation of [Tensor.add_] with a scale, [p + alpha * d]
    computed as one operation, which the CPU kernel does with a fused
    multiply-add: on floats the product is not rounded before the sum. *)
Class Scalar (F : Type) := {
  fzero : F;
  fone : F;
  fadd : F → F → F;
  fsub : F → F → F;
  fmul : F → F → F;
  fdiv : F → F → F;
  fneg : F → F;
  fmadd : F → F → F → F;
  of_nat : nat → F
}.

(** Tensor objects are identified by their address, modules by theirs. *)
Abbreviation loc := nat (only parsing).
Abbreviation modid := nat (only parsing).

(** The framework calls a training step makes, in the order they happen. *)
Inductive event :=
  | EvTrain
  | EvForward
  | EvLoss
  | EvBackward
  | EvStep
  | EvZeroGrad.

Section torch.
Context {F : Type} `{Scalar F}.

(** [x ** n] for a Python integer exponent. *)
Fixpoint fpow (x : F) (n : nat) : F :=
  match n with
  | 0 => fone
  | 1 => x
  | S m => fmul x (fpow x m)
  end.

Definition tsum (xs : list F) : F := foldr fadd fzero xs.

(** Broadcasting of a column or one-element tensor against another: equal
    sizes, or one of them of size 1.  The notebook's tensors are columns of
    shape (N,1) and parameters of shape (1,); a tensor of shape (N,) with
    N > 1, which PyTorch would broadcast against a column into a matrix, has
    no counterpart here. *)
Definition broadcastable (u v : list F) : bool :=
  bool_decide (length u = length v)
  || bool_decide (length u = 1) || bool_decide (length v = 1).

Definition bzip (f : F → F → F) (u v : list F) : list F :=
  match u, v with
  | [a], _ :: _ :: _ => map (f a) v
  | _ :: _ :: _, [b] => map (λ x, f x b) u
  | _, _ => zip_with f u v
  end.

(** The gradient of a broadcast operand is summed back to the operand's size. *)
Definition sum_to_size (n : nat) (g : list F) : list F :=
  if bool_decide (length g = n) then g else [tsum g].

(** ** Tensors *)

(** A leaf tensor, as stored: its [.data], its [.grad] (None until a backward
    pass reaches it) and its [requires_grad] flag. *)
Record tensor := Tensor {
  data : list F;
  grad : option (list F);
  requires_grad : bool
}.

(** A tensor as an operand: its value and, for autograd, what a gradient
    arriving at it contributes to which leaves. *)
Record node := Node {
  value : list F;
  needs_grad : bool;
  grad_fn : list F → list (loc * list F)
}.

Definition leaf (l : loc) (t : tensor) : node :=
  {| value := data t;
     needs_grad := requires_grad t;
     grad_fn := λ g, if requires_grad t then [(l, g)] else [] |}.

Definition read (h : gmap loc tensor) (l : loc) : option node :=
  leaf l <$> h !! l.

(** [u + v] *)
Definition t_add (u v : node) : option node :=
  if broadcastable (value u) (value v) then
    Some {| value := bzip fadd (value u) (value v);
            needs_grad := needs_grad u || needs_grad v;
            grad_fn := λ g,
              grad_fn u (sum_to_size (length (value u)) g)
              ++ grad_fn v (sum_to_size (length (value v)) g) |}
  else None.

(** [u - v] *)
Definition t_sub (u v : node) : option node :=
  if broadcastable (value u) (value v) then
    Some {| value := bzip fsub (value u) (value v);
            needs_grad := needs_grad u || needs_grad v;
            grad_fn := λ g,
              grad_fn u (sum_to_size (length (value u)) g)
              ++ grad_fn v (sum_to_size (length (value v)) (map fneg g)) |}
  else None.

(** [u * v] *)
Definition t_mul (u v : node) : option node :=
  if broadcastable (value u) (value v) then
    Some {| value := bzip fmul (value u) (value v);
            needs_grad := needs_grad u || needs_grad v;
            grad_fn := λ g,
              grad_fn u (sum_to_size (length (value u)) (bzip fmul g (value v)))
              ++ grad_fn v (sum_to_size (length (value v)) (bzip fmul g (value u))) |}
  else None.

(** [u ** n] *)
Definition t_pow (u : node) (n : nat) : node :=
  {| value := map (λ x, fpow x n) (value u);
     needs_grad := needs_grad u;
     grad_fn := λ g,
       grad_fn u (zip_with fmul g
                    (map (λ x, fmul (of_nat n) (fpow x (n - 1))) (value u))) |}.

(** [u.mean()] *)
Definition t_mean (u : node) : node :=
  {| value := [fdiv (tsum (value u)) (of_nat (length (value u)))];
     needs_grad := needs_grad u;
     grad_fn := λ g,
       grad_fn u (map (λ gi, fdiv gi (of_nat (length (value u))))
                      (replicate (length (value u)) (hd fzero g))) |}.

(** [u.sum()] *)
Definition t_sum (u : node) : node :=
  {| value := [tsum (value u)];
     needs_grad := needs_grad u;
     grad_fn := λ g, grad_fn u (replicate (length (value u)) (hd fzero g)) |}.

(** [loss.item()]: the Python number held by a one-element tensor. *)
Definition item (u : node) : option F :=
  match value u with
  | [v] => Some v
  | _ => None
  end.

(** ** Autograd *)

(** A gradient reaching a leaf that requires it is stored if the leaf has none
    and added to the stored one otherwise. *)
Definition accumulate_grad (g : list F) (t : tensor) : tensor :=
  if requires_grad t then
    {| data := data t;
       grad := Some (match grad t with
                     | None => g
                     | Some g0 => zip_with fadd g0 g
                     end);
       requires_grad := requires_grad t |}
  else t.

Definition accumulate (h : gmap loc tensor) (c : loc * list F) : gmap loc tensor :=
  alter (accumulate_grad c.2) c.1 h.

(** [loss.backward()]: only for a one-element tensor that requires grad. *)
Definition backward (loss : node) (h : gmap loc tensor) : option (gmap loc tensor) :=
  if needs_grad loss && bool_decide (length (value loss) = 1)
  then Some (foldl accumulate h (grad_fn loss [fone]))
  else None.

(** ** The optimizer's two methods *)

(** [p.grad.zero_()] when [p.grad] is not None, the [a.grad.zero_()] of the
    notebook's comments, which is what [zero_grad] does in the PyTorch
    releases for the notebook's Python 3.7.  Later releases set [p.grad] to
    None instead; [cleared] below holds of a tensor after either. *)
Definition zero_ (t : tensor) : tensor :=
  {| data := data t;
     grad := map (λ _, fzero) <$> grad t;
     requires_grad := requires_grad t |}.

(** [Optimizer.zero_grad]: every parameter of the group, in order. *)
Definition zero_grads (params : list loc) (h : gmap loc tensor) : gmap loc tensor :=
  foldl (λ h p, alter zero_ p h) h params.

(** [p.data.add_(-lr, d_p)] of [SGD.step], skipped when [p.grad] is None:
    one scaled addition per element.  The optimizer is built with [lr] only:
    no momentum, weight decay or Nesterov term enters the update. *)
Definition sgd_update (lr : F) (t : tensor) : tensor :=
  match grad t with
  | None => t
  | Some d_p =>
      {| data := zip_with (λ p d, fmadd p (fneg lr) d) (data t) d_p;
         grad := grad t;
         requires_grad := requires_grad t |}
  end.

Definition sgd_step (params : list loc) (lr : F) (h : gmap loc tensor) : gmap loc tensor :=
  foldl (λ h p, alter (sgd_update lr) p h) h params.

(** ** Interfaces of the framework objects *)

(** An [nn.Module]: the identities of the module and its descendants
    ([modules()]), its parameters ([parameters()]) and its [forward], which
    reads the parameters it needs from the heap. *)
Record Module := {
  modules : list modid;
  parameters : list loc;
  forward : node → gmap loc tensor → option node
}.

(** A loss function is called as [loss_fn(input, target)]. *)
Definition Loss := node → node → option node.

(** An optimizer: the parameters it was constructed with and its update rule. *)
Record Optimizer := {
  param_groups : list loc;
  step_rule : gmap loc tensor → gmap loc tensor
}.

(** ** State of a notebook session *)

Record world := World {
  heap : gmap loc tensor;
  modes : gmap modid bool;       (* [module.training] *)
  trace : list event
}.

(** Statements either raise (None) or return a value and the next state. *)
Definition M (A : Type) : Type := world → option (A * world).

#[export] Instance M_ret : MRet M := λ A a w, Some (a, w).
#[export] Instance M_bind : MBind M := λ A B k c w,
  match c w with
  | Some (a, w') => k a w'
  | None => None
  end.

Definition lift {A} (o : option A) : M A := λ w, (λ a, (a, w)) <$> o.

(** Evaluating a variable bound to a tensor. *)
Definition get (l : loc) : M node := λ w, (λ n, (n, w)) <$> read (heap w) l.

(** [Module.train] sets [training] on the module, then on its descendants. *)
Definition set_training (ms : list modid) (m : gmap modid bool) : gmap modid bool :=
  foldl (λ m i, <[i := true]> m) m ms.

(** [model.train()] *)
Definition train (model : Module) : M () := λ w,
  Some ((), {| heap := heap w;
               modes := set_training (modules model) (modes w);
               trace := trace w ++ [EvTrain] |}).

(** [model(x)] *)
Definition call (model : Module) (x : node) : M node := λ w,
  yhat ← forward model x (heap w);
  Some (yhat, {| heap := heap w; modes := modes w; trace := trace w ++ [EvForward] |}).

(** [loss_fn(input, target)] *)
Definition call_loss (loss_fn : Loss) (input target : node) : M node := λ w,
  loss ← loss_fn input target;
  Some (loss, {| heap := heap w; modes := modes w; trace := trace w ++ [EvLoss] |}).

(** [loss.backward()] *)
Definition loss_backward (loss : node) : M () := λ w,
  h ← backward loss (heap w);
  Some ((), {| heap := h; modes := modes w; trace := trace w ++ [EvBackward] |}).

(** [optimizer.step()] *)
Definition step (optimizer : Optimizer) : M () := λ w,
  Some ((), {| heap := step_rule optimizer (heap w);
               modes := modes w;
               trace := trace w ++ [EvStep] |}).

(** [optimizer.zero_grad()] *)
Definition zero_grad (optimizer : Optimizer) : M () := λ w,
  Some ((), {| heap := zero_grads (param_groups optimizer) (heap w);
               modes := modes w;
               trace := trace w ++ [EvZeroGrad] |}).

(** [for epoch in range(n): r = body(); history.append(r)] *)
Fixpoint for_range {A} (n : nat) (body : M A) (history : list A) : M (list A) :=
  match n with
  | 0 => mret history
  | S k => r ← body; for_range k body (history ++ [r])
  end.

(** ** The framework objects the notebook constructs *)

(** [optim.SGD(params, lr=lr)] *)
Definition SGD (params : list loc) (lr : F) : Optimizer :=
  {| param_groups := params; step_rule := sgd_step params lr |}.

Inductive reduction := ReductionNone | ReductionMean | ReductionSum.

(** [nn.MSELoss(reduction=...)] *)
Definition MSELoss (r : reduction) : Loss := λ input target,
  d ← t_sub input target;
  let ret := t_pow d 2 in
  Some (match r with
        | ReductionNone => ret
        | ReductionMean => t_mean ret
        | ReductionSum => t_sum ret
        end).

(** [nn.Linear(1, 1)]: one weight, one bias. *)
Definition Linear (self : modid) (weight bias : loc) : Module :=
  {| modules := [self];
     parameters := [weight; bias];
     forward := λ x h,
       w ← read h weight; b ← read h bias;
       xw ← t_mul x w; t_add xw b |}.

(** [nn.Sequential] applied to its layers, in order. *)
Definition Sequential (self : modid) (layers : list Module) : Module :=
  {| modules := self :: concat (modules <$> layers);
     parameters := concat (parameters <$> layers);
     forward := λ x h, foldl (λ acc layer, v ← acc; forward layer v h) (Some x) layers |}.

(** ** The notebook *)

(** Cell 8. *)
Definition ManualLinearRegression (self : modid) (a b : loc) : Module :=
  {| modules := [self];
     parameters := [a; b];
     forward := λ x h,
       self_a ← read h a; self_b ← read h b;
       bx ← t_mul self_b x; t_add self_a bx |}.

(** Cell 13. *)
Definition LayerLinearRegression (self : modid) (linear : Module) : Module :=
  {| modules := self :: modules linear;
     parameters := parameters linear;
     forward := λ x h, forward linear x h |}.

(** Cell 4: one pass of the loop body.  The notebook's loop keeps no record
    of [loss]; what is returned here, and collected by the loop, is the
    value [loss] was bound to in the epoch. *)
Definition cell4_epoch (a b x_train_tensor y_train_tensor : loc)
    (optimizer : Optimizer) : M (list F) :=
  va ← get a; vb ← get b; vx ← get x_train_tensor;
  bx ← lift (t_mul vb vx);
  yhat ← lift (t_add va bx);
  vy ← get y_train_tensor;
  error ← lift (t_sub vy yhat);
  let loss := t_mean (t_pow error 2) in
  loss_backward loss;;
  step optimizer;;
  zero_grad optimizer;;
  mret (value loss).

Definition cell4 (a b x_train_tensor y_train_tensor : loc) (lr : F) (n_epochs : nat)
    : M (list (list F)) :=
  let optimizer := SGD [a; b] lr in
  for_range n_epochs (cell4_epoch a b x_train_tensor y_train_tensor optimizer) [].

(** Cell 6. *)
Definition cell6_epoch (a b x_train_tensor y_train_tensor : loc)
    (loss_fn : Loss) (optimizer : Optimizer) : M (list F) :=
  va ← get a; vb ← get b; vx ← get x_train_tensor;
  bx ← lift (t_mul vb vx);
  yhat ← lift (t_add va bx);
  vy ← get y_train_tensor;
  loss ← call_loss loss_fn vy yhat;
  loss_backward loss;;
  step optimizer;;
  zero_grad optimizer;;
  mret (value loss).

Definition cell6 (a b x_train_tensor y_train_tensor : loc) (lr : F) (n_epochs : nat)
    : M (list (list F)) :=
  let loss_fn := MSELoss ReductionMean in
  let optimizer := SGD [a; b] lr in
  for_range n_epochs (cell6_epoch a b x_train_tensor y_train_tensor loss_fn optimizer) [].

(** Cell 10: the loop body written inline. *)
Definition cell10_epoch (model : Module) (loss_fn : Loss) (optimizer : Optimizer)
    (x_train_tensor y_train_tensor : loc) : M (list F) :=
  train model;;
  vx ← get x_train_tensor;
  yhat ← call model vx;
  vy ← get y_train_tensor;
  loss ← call_loss loss_fn vy yhat;
  loss_backward loss;;
  step optimizer;;
  zero_grad optimizer;;
  mret (value loss).

Definition cell10_loop (model : Module) (loss_fn : Loss) (optimizer : Optimizer)
    (x_train_tensor y_train_tensor : loc) (n_epochs : nat) : M (list (list F)) :=
  for_range n_epochs (cell10_epoch model loss_fn optimizer x_train_tensor y_train_tensor) [].

Definition cell10 (self : modid) (a b x_train_tensor y_train_tensor : loc) (lr : F)
    (n_epochs : nat) : M (list (list F)) :=
  let model := ManualLinearRegression self a b in
  let loss_fn := MSELoss ReductionMean in
  let optimizer := SGD (parameters model) lr in
  cell10_loop model loss_fn optimizer x_train_tensor y_train_tensor n_epochs.

(** Cell 18. *)
Definition make_train_step (model : Module) (loss_fn : Loss) (optimizer : Optimizer)
    : loc → loc → M F :=
  let train_step (x y : loc) : M F :=
    train model;;
    vx ← get x;
    yhat ← call model vx;
    vy ← get y;
    loss ← call_loss loss_fn vy yhat;
    loss_backward loss;;
    step optimizer;;
    zero_grad optimizer;;
    lift (item loss)
  in train_step.

Definition cell18_loop (model : Module) (loss_fn : Loss) (optimizer : Optimizer)
    (x_train_tensor y_train_tensor : loc) (n_epochs : nat) : M (list F) :=
  let train_step := make_train_step model loss_fn optimizer in
  for_range n_epochs (train_step x_train_tensor y_train_tensor) [].

(** The two lines of cell 4 that [optimizer.step()] replaces:
    [with torch.no_grad(): a -= lr * a.grad; b -= lr * b.grad].
    [lr * p.grad] raises when [p.grad] is None. *)
Definition manual_sub (lr : F) (p : loc) (h : gmap loc tensor)
    : option (gmap loc tensor) :=
  t ← h !! p;
  g ← grad t;
  Some (<[p := {| data := zip_with fsub (data t) (map (fmul lr) g);
                  grad := grad t;
                  requires_grad := requires_grad t |}]> h).

Definition manual_update (lr : F) (a b : loc) (h : gmap loc tensor)
    : option (gmap loc tensor) :=
  h' ← manual_sub lr a h; manual_sub lr b h'.

(** The two lines of cell 6 that [loss_fn(y_train_tensor, yhat)] replaces:
    [error = y_tensor - yhat; loss = (error ** 2).mean()]. *)
Definition manual_loss : Loss := λ y yhat,
  error ← t_sub y yhat;
  Some (t_mean (t_pow error 2)).

(** ** Notions the statements use *)

(** The loss tensor a model yields on [(x, y)] when run on heap [h]. *)
Definition loss_at (model : Module) (loss_fn : Loss) (x y : loc)
    (h : gmap loc tensor) : option node :=
  vx ← read h x;
  yhat ← forward model vx h;
  vy ← read h y;
  loss_fn vy yhat.

(** What one pass of the inline loop body leaves behind. *)
Definition after_cycle (model : Module) (optimizer : Optimizer)
    (h : gmap loc tensor) (w : world) : world :=
  {| heap := zero_grads (param_groups optimizer) (step_rule optimizer h);
     modes := set_training (modules model) (modes w);
     trace := trace w ++ [EvTrain; EvForward; EvLoss; EvBackward; EvStep; EvZeroGrad] |}.

(** The outcomes of two runs correspond: both raise, or both return, with
    values related by [V] and states related by [R]. *)
Definition sim {A B} (R : world → world → Prop) (V : A → B → Prop)
    (o1 : option (A * world)) (o2 : option (B * world)) : Prop :=
  match o1, o2 with
  | Some (a, w1), Some (b, w2) => V a b ∧ R w1 w2
  | None, None => True
  | _, _ => False
  end.

(** The heap after altering, for each [c] of a list in order, the tensor at
    [k c] by [g c]. *)
Definition alter_each {C} (g : C → tensor → tensor) (k : C → loc) (cs : list C)
    (h : gmap loc tensor) : gmap loc tensor :=
  foldl (λ h c, alter (g c) (k c) h) h cs.

(** The loss of the hand-written prediction [a + b * x_train_tensor]. *)
Definition linear_loss (a b x y : loc) (loss_fn : Loss) (h : gmap loc tensor)
    : option node :=
  va ← read h a; vb ← read h b; vx ← read h x;
  bx ← t_mul vb vx;
  yhat ← t_add va bx;
  vy ← read h y;
  loss_fn vy yhat.

(** An epoch seen from outside: the modules [ms] set to training mode, the
    backward pass of the loss [lossf] finds on the heap, the optimizer
    step, the zeroing; [tr] is what the epoch adds to the trace. *)
Definition epoch_of (lossf : gmap loc tensor → option node) (optimizer : Optimizer)
    (ms : list modid) (tr : list event) : M (list F) := λ w,
  loss ← lossf (heap w);
  h ← backward loss (heap w);
  Some (value loss,
        {| heap := zero_grads (param_groups optimizer) (step_rule optimizer h);
           modes := set_training ms (modes w);
           trace := trace w ++ tr |}).

(** Two heaps that hold the same tensors at the locations in [L]. *)
Definition agree (L : loc → Prop) (h1 h2 : gmap loc tensor) : Prop :=
  ∀ l, L l → h1 !! l = h2 !! l.

(** No gradient, or one whose elements are all zero. *)
Definition cleared (t : tensor) : Prop :=
  match grad t with
  | None => True
  | Some g => Forall (λ gi, gi = fzero) g
  end.

(** The gradient a leaf holds once the contributions [gs] of a backward pass
    have reached it, in order: the first is stored if the leaf held none,
    every other one is added to what is stored. *)
Definition received (g0 : option (list F)) (gs : list (list F)) : option (list F) :=
  foldl (λ acc g, Some (match acc with
                        | None => g
                        | Some g' => zip_with fadd g' g
                        end)) g0 gs.

(** A parameter as [ManualLinearRegression.__init__] makes it: one element,
    requiring grad; its gradient, once it has one, of one element too. *)
Definition scalar_parameter (t : tensor) : Prop :=
  length (data t) = 1 ∧ requires_grad t = true
  ∧ ∀ g, grad t = Some g → length g = 1.

(** A tensor of training data: it does not require grad and holds none. *)
Definition plain_data (t : tensor) : Prop :=
  requires_grad t = false ∧ grad t = None.

(** A parameter between the backward pass of an epoch and the zeroing, and
    after the zeroing. *)
Definition with_gradient (t : tensor) : Prop :=
  length (data t) = 1 ∧ requires_grad t = true
  ∧ ∃ g, grad t = Some g ∧ length g = 1.

Definition zeroed (t : tensor) : Prop :=
  length (data t) = 1 ∧ requires_grad t = true ∧ grad t = Some [fzero].

End torch.

Arguments tensor F : clear implicits.
Arguments node F : clear implicits.
Arguments Module F : clear implicits.
Arguments Loss F : clear implicits.
Arguments Optimizer F : clear implicits.
Arguments world F : clear implicits.
Arguments M F A : clear implicits.

(** Rationals kept in lowest terms, for running the model. *)
Definition Q_scalar : Scalar Q := {|
  fzero := 0%Q;
  fone := 1%Q;
  fadd x y := Qred (x + y);
  fsub x y := Qred (x - y);
  fmul x y := Qred (x * y);
  fdiv x y := Qred (x / y);
  fneg x := Qred (- x);
  fmadd p alpha d := Qred (p + alpha * d);
  of_nat n := inject_Z (Z.of_nat n)
|}.

(** IEEE 754 single precision, the dtype of the notebook's tensors: 24 bits
    of precision, rounding to nearest even.  The scaled addition rounds the
    exact [p + alpha * d] once. *)
Definition f32_scalar : Scalar spec_float := {|
  fzero := S754_zero false;
  fone := SFone 24 128;
  fadd := SFadd 24 128;
  fsub := SFsub 24 128;
  fmul := SFmul 24 128;
  fdiv := SFdiv 24 128;
  fneg := SFopp;
  fmadd p alpha d :=
    match p, alpha, d with
    | S754_finite _ _ _, S754_finite sa ma ea, S754_finite sd md ed =>
        SFadd 24 128 p (S754_finite (xorb sa sd) (ma * md) (ea + ed))
    | _, _, _ => SFadd 24 128 p (SFmul 24 128 alpha d)
    end;
  of_nat n := binary_normalize 24 128 (Z.of_nat n) 0 false
|}.

(** * A session on rationals *)

#[local] Existing Instance Q_scalar.

(** Running a statement for its effect; a statement that raises leaves the
    state as it was. *)
Definition exec {A} (c : M Q A) (w : world Q) : world Q :=
  match c w with
  | Some (_, w') => w'
  | None => w
  end.

Module Session.

(** The objects of the session, by identity. *)
Definition a : loc := 0.
Definition b : loc := 1.
Definition x_train_tensor : loc := 2.
Definition y_train_tensor : loc := 3.
Definition weight : loc := 4.
Definition bias : loc := 5.

Definition lr : Q := 1 # 10.
Definition n_epochs : nat := 2.

(** Two training points on the line [y = 1 + 2 x]; every parameter starts
    at 0 without gradient. *)
Definition start : world Q :=
  {| heap := <[a := Tensor [0%Q] None true]> (
             <[b := Tensor [0%Q] None true]> (
             <[x_train_tensor := Tensor [1%Q; 2%Q] None false]> (
             <[y_train_tensor := Tensor [3%Q; 5%Q] None false]> (
             <[weight := Tensor [0%Q] None true]> (
             <[bias := Tensor [0%Q] None true]> ∅)))));
     modes := ∅;
     trace := [] |}.

(** Cell 10. *)
Definition manual_model : Module Q := ManualLinearRegression 10 a b.
Definition loss_fn : Loss Q := MSELoss ReductionMean.
Definition optimizer : Optimizer Q := SGD (parameters manual_model) lr.

(** Cell 16 binds [model] anew; [optimizer] stays the one of cell 10. *)
Definition model : Module Q := Sequential 11 [Linear 12 weight bias].

(** Cell 18. *)
Definition train_step : loc → loc → M Q Q := make_train_step model loss_fn optimizer.

(** The state in which cell 18 starts: cell 10 has run. *)
Definition at_cell18 : world Q :=
  exec (cell10 10 a b x_train_tensor y_train_tensor lr n_epochs) start.

(** The state between [loss.backward()] and [optimizer.step()] in the first
    epoch of cell 4. *)
Definition after_backward : world Q :=
  {| heap := <[a := Tensor [0%Q] (Some [(-8)%Q]) true]> (
             <[b := Tensor [0%Q] (Some [(-13)%Q]) true]> (heap start));
     modes := ∅;
     trace := [EvBackward] |}.

(** Another session: the same parameters and data, one more tensor, other
    modes and another past. *)
Definition elsewhere : world Q :=
  {| heap := <[6 := Tensor [7%Q] (Some [1%Q]) true]> (heap start);
     modes := {[10 := false]};
     trace := [EvTrain; EvForward] |}.

(** A session whose labels are one too many for the features. *)
Definition mismatched : world Q :=
  {| heap := <[y_train_tensor := Tensor [3%Q; 5%Q; 7%Q] None false]> (heap start);
     modes := ∅;
     trace := [] |}.

Definition labels : node Q := Node [3%Q; 5%Q] false (λ _, []).
Definition predictions : node Q := Node [1%Q; 2%Q] false (λ _, []).

(** The state between [loss.backward()] and [optimizer.step()] in the
    second epoch of cell 4. *)
Definition second_backward : world Q :=
  {| heap := <[a := Tensor [4 # 5] (Some [(-5) # 2]) true]> (
             <[b := Tensor [13 # 10] (Some [(-41) # 10]) true]> (heap start));
     modes := ∅;
     trace := [EvBackward; EvStep; EvZeroGrad; EvBackward] |}.

(** A session whose labels were created with [requires_grad=True]. *)
Definition labels_require_grad : world Q :=
  {| heap := <[y_train_tensor := Tensor [3%Q; 5%Q] None true]> (heap start);
     modes := ∅;
     trace := [] |}.

End Session.

(** * A session on float32 *)

#[local] Existing Instance f32_scalar.

Module Float32.

(** The float32 nearest to an integer. *)
Definition of_Z (z : Z) : spec_float := binary_normalize 24 128 z 0 false.

(** [lr = 1e-1] as the float32 kernels see it: 13421773 / 2^27. *)
Definition lr : spec_float := SFdiv 24 128 (of_Z 1) (of_Z 10).

(** Both parameters at 1, two training points. *)
Definition start : world spec_float :=
  {| heap := <[Session.a := Tensor [of_Z 1] None true]> (
             <[Session.b := Tensor [of_Z 1] None true]> (
             <[Session.x_train_tensor := Tensor [of_Z 1; of_Z 2] None false]> (
             <[Session.y_train_tensor := Tensor [of_Z (-25); of_Z 23] None false]> ∅)));
     modes := ∅;
     trace := [] |}.

(** The state between [loss.backward()] and [optimizer.step()] in the
    first epoch of cell 4: [a.grad] is 7 and [b.grad] is -13. *)
Definition after_backward : world spec_float :=
  {| heap := <[Session.a := Tensor [of_Z 1] (Some [of_Z 7]) true]> (
             <[Session.b := Tensor [of_Z 1] (Some [of_Z (-13)]) true]> (heap start));
     modes := ∅;
     trace := [EvBackward] |}.

End Float32.

(** * Facts *)

Section facts.
Context {F : Type} `{Scalar F}.

Local Abbreviation tensor := (tensor F).
Local Abbreviation node := (node F).
Local Abbreviation world := (world F).
Local Abbreviation Module := (Module F).
Local Abbreviation Loss := (Loss F).
Local Abbreviation Optimizer := (Optimizer F).
Local Abbreviation M := (M F).

(** ** Running statements *)

#[local] Arguments bzip : simpl never.
#[local] Arguments broadcastable : simpl never.

(** Membership in a list written out. *)
Ltac here := repeat first [apply list_elem_of_here | apply list_elem_of_further].

Ltac run :=
  unfold make_train_step, cell10_epoch, cell6_epoch, cell4_epoch,
    mbind, M_bind, mret, M_ret, lift, get, call, call_loss, loss_backward,
    step, zero_grad, train; simpl.

Lemma item_value (u : node) (v : F) : item u = Some v ↔ value u = [v].
Proof.
  unfold item. destruct (value u) as [|v' [|]]; split; intros E; simplify_eq; done.
Qed.

Lemma backward_scalar (loss : node) (h h' : gmap loc tensor) :
  backward loss h = Some h' → ∃ v, value loss = [v].
Proof.
  unfold backward. destruct (needs_grad loss); simpl; [|done].
  case_bool_decide as Hlen; [|done]. intros _.
  destruct (value loss) as [|v [|]]; simplify_eq/=. by exists v.
Qed.

Lemma cell10_epoch_eq (model : Module) (loss_fn : Loss) (optimizer : Optimizer)
    (x y : loc) (w : world) :
  cell10_epoch model loss_fn optimizer x y w =
    (loss ← loss_at model loss_fn x y (heap w);
     h ← backward loss (heap w);
     Some (value loss, after_cycle model optimizer h w)).
Proof.
  unfold loss_at, after_cycle. run.
  destruct (read (heap w) x) as [vx|]; simpl; [|done].
  destruct (forward model vx (heap w)) as [yhat|]; simpl; [|done].
  destruct (read (heap w) y) as [vy|]; simpl; [|done].
  destruct (loss_fn vy yhat) as [loss|]; simpl; [|done].
  destruct (backward loss (heap w)) as [h|]; simpl; [|done].
  by rewrite <- !app_assoc.
Qed.

Lemma train_step_eq (model : Module) (loss_fn : Loss) (optimizer : Optimizer)
    (x y : loc) (w : world) :
  make_train_step model loss_fn optimizer x y w =
    (loss ← loss_at model loss_fn x y (heap w);
     h ← backward loss (heap w);
     v ← item loss;
     Some (v, after_cycle model optimizer h w)).
Proof.
  unfold loss_at, after_cycle. run.
  destruct (read (heap w) x) as [vx|]; simpl; [|done].
  destruct (forward model vx (heap w)) as [yhat|]; simpl; [|done].
  destruct (read (heap w) y) as [vy|]; simpl; [|done].
  destruct (loss_fn vy yhat) as [loss|]; simpl; [|done].
  destruct (backward loss (heap w)) as [h|]; simpl; [|done].
  destruct (item loss) as [v|]; simpl; [|done].
  by rewrite <- !app_assoc.
Qed.

(** The closure and the inline body differ only in [loss.item()]. *)
Lemma train_step_inline (model : Module) (loss_fn : Loss) (optimizer : Optimizer)
    (x y : loc) (w : world) :
  (λ r : F * world, ([r.1], r.2)) <$> make_train_step model loss_fn optimizer x y w
  = cell10_epoch model loss_fn optimizer x y w.
Proof.
  rewrite train_step_eq, cell10_epoch_eq.
  destruct (loss_at model loss_fn x y (heap w)) as [loss|]; simpl; [|done].
  destruct (backward loss (heap w)) as [h|] eqn:Hb; simpl; [|done].
  destruct (backward_scalar _ _ _ Hb) as [v Hv].
  apply item_value in Hv as Hi. rewrite Hi. simpl. by rewrite Hv.
Qed.

(** ** Loops *)

(** Two loop bodies that keep a relation between states, and return related
    values, keep it over any number of epochs. *)
Lemma for_range_sim {A B} (R : world → world → Prop) (V : A → B → Prop)
    (body1 : M A) (body2 : M B) :
  (∀ w1 w2, R w1 w2 → sim R V (body1 w1) (body2 w2)) →
  ∀ n acc1 acc2 w1 w2, Forall2 V acc1 acc2 → R w1 w2 →
    sim R (Forall2 V) (for_range n body1 acc1 w1) (for_range n body2 acc2 w2).
Proof.
  intros Hbody. induction n as [|n IH]; intros acc1 acc2 w1 w2 Hacc HR; simpl.
  - done.
  - unfold mbind, M_bind. specialize (Hbody w1 w2 HR). unfold sim in Hbody.
    destruct (body1 w1) as [[r1 w1']|], (body2 w2) as [[r2 w2']|]; try done.
    destruct Hbody as [HV HR']. apply IH; [|done].
    apply Forall2_app; [done|]. by constructor.
Qed.

(** The history a loop returns extends the one it was given by one entry per
    epoch, and every entry is what the body returned in the state the
    preceding epochs left. *)
Lemma for_range_history {A} (body : M A) (n : nat) (acc rs : list A) (w w' : world) :
  for_range n body acc w = Some (rs, w') →
  ∃ new, rs = acc ++ new ∧ length new = n ∧
    ∀ i r, new !! i = Some r →
      ∃ wi wi', for_range i body acc w = Some (acc ++ take i new, wi)
                ∧ body wi = Some (r, wi').
Proof.
  revert acc w. induction n as [|n IH]; intros acc w; simpl.
  - intros [= <- <-]. exists []. rewrite app_nil_r. split_and!; [done..|].
    intros i r Hi. by rewrite lookup_nil in Hi.
  - unfold mbind, M_bind. destruct (body w) as [[r0 w0]|] eqn:Hb; [|done].
    intros Hrest. apply IH in Hrest as (new & -> & Hlen & Hnew).
    exists (r0 :: new). split_and!.
    + by rewrite <- app_assoc.
    + simpl. by rewrite Hlen.
    + intros [|i] r Hi; simpl in *.
      * simplify_eq. exists w, w0. by rewrite app_nil_r.
      * destruct (Hnew i r Hi) as (wi & wi' & Hrun & Hbody).
        exists wi, wi'. unfold mbind, M_bind. rewrite Hb.
        split; [|done]. rewrite Hrun. by rewrite <- app_assoc.
Qed.

(** ** Broadcasting against a one-element tensor *)

Lemma bzip_scalar_l (f : F → F → F) (a : F) (v : list F) :
  bzip f [a] v = map (f a) v.
Proof. by destruct v as [|? [|? ?]]. Qed.

Lemma bzip_same_length (f : F → F → F) (u v : list F) :
  length u = length v → bzip f u v = zip_with f u v.
Proof. destruct u as [|? [|? ?]], v as [|? [|? ?]]; done. Qed.

Lemma broadcastable_scalar_l (a : F) (v : list F) : broadcastable [a] v = true.
Proof. unfold broadcastable. by rewrite orb_true_r. Qed.

Lemma broadcastable_same_length (u v : list F) :
  length u = length v → broadcastable u v = true.
Proof. intros E. unfold broadcastable. by rewrite bool_decide_eq_true_2. Qed.

(** ** Heaps updated parameter by parameter *)

Section alter_each.
Context {C : Type} (g : C → tensor → tensor) (k : C → loc).

(** What is stored at [l] afterwards depends on what was stored at [l] only. *)
Lemma alter_each_local (cs : list C) (h1 h2 : gmap loc tensor) (l : loc) :
  h1 !! l = h2 !! l → alter_each g k cs h1 !! l = alter_each g k cs h2 !! l.
Proof.
  unfold alter_each. revert h1 h2.
  induction cs as [|c cs IH]; intros h1 h2 E; simpl; [done|].
  apply IH. rewrite !lookup_alter. case_decide; [|done].
  subst l. by rewrite E.
Qed.

Lemma alter_each_untouched (cs : list C) (h : gmap loc tensor) (l : loc) :
  (∀ c, c ∈ cs → k c ≠ l) → alter_each g k cs h !! l = h !! l.
Proof.
  unfold alter_each. revert h.
  induction cs as [|c cs IH]; intros h Hl; simpl; [done|].
  rewrite IH by (intros c' ?; apply Hl; set_solver).
  apply lookup_alter_ne, Hl. set_solver.
Qed.

Lemma alter_each_fixed (cs : list C) (h : gmap loc tensor) (l : loc) (t : tensor) :
  h !! l = Some t → (∀ c, c ∈ cs → k c = l → g c t = t) →
  alter_each g k cs h !! l = Some t.
Proof.
  unfold alter_each. revert h.
  induction cs as [|c cs IH]; intros h Hl Hfix; simpl; [done|].
  apply IH; [|intros c' ?; apply Hfix; set_solver].
  rewrite lookup_alter. case_decide as E; [|done].
  subst l. rewrite Hl. simpl. f_equal. apply Hfix; [set_solver|done].
Qed.

(** A field no update writes keeps its value everywhere. *)
Lemma alter_each_field {B} (field : tensor → B) (cs : list C)
    (h : gmap loc tensor) (l : loc) :
  (∀ c t, field (g c t) = field t) →
  field <$> alter_each g k cs h !! l = field <$> h !! l.
Proof.
  intros Hf. unfold alter_each. revert h.
  induction cs as [|c cs IH]; intros h; simpl; [done|].
  rewrite IH, lookup_alter. case_decide as E; [|done].
  subst l. destruct (h !! k c); simpl; [|done]. by rewrite Hf.
Qed.
End alter_each.

Lemma alter_each_once (f : tensor → tensor) (ps : list loc)
    (h : gmap loc tensor) (p : loc) :
  NoDup ps → p ∈ ps → alter_each (λ _, f) id ps h !! p = f <$> h !! p.
Proof.
  unfold alter_each. revert h.
  induction ps as [|q ps IH]; intros h Hnd Hin; simpl; [by apply elem_of_nil in Hin|].
  apply NoDup_cons in Hnd as [Hq Hnd]. apply elem_of_cons in Hin as [->|Hin].
  - etrans; [apply (alter_each_untouched (λ _, f) id)|].
    + intros c Hc E. simpl in E. by subst c.
    + apply lookup_alter_eq.
  - rewrite IH by done. f_equal. apply lookup_alter_ne.
    intros E. simpl in E. by subst q.
Qed.

Lemma zero_grads_each (params : list loc) (h : gmap loc tensor) :
  zero_grads params h = alter_each (λ _, zero_) id params h.
Proof. done. Qed.

Lemma sgd_step_each (params : list loc) (lr : F) (h : gmap loc tensor) :
  sgd_step params lr h = alter_each (λ _, sgd_update lr) id params h.
Proof. done. Qed.

Lemma backward_each (loss : node) (h h' : gmap loc tensor) :
  backward loss h = Some h' →
  h' = alter_each (λ c, accumulate_grad c.2) fst (grad_fn loss [fone]) h.
Proof.
  unfold backward. destruct (_ && _); [|done]. by intros [= <-].
Qed.

Lemma zero_no_grad (t : tensor) : grad t = None → zero_ t = t.
Proof. destruct t as [d g r]. simpl. by intros ->. Qed.

Lemma sgd_update_no_grad (lr : F) (t : tensor) : grad t = None → sgd_update lr t = t.
Proof. unfold sgd_update. by intros ->. Qed.

Lemma accumulate_grad_frozen (g : list F) (t : tensor) :
  requires_grad t = false → accumulate_grad g t = t.
Proof. unfold accumulate_grad. by intros ->. Qed.

Lemma data_accumulate_grad (g : list F) (t : tensor) : data (accumulate_grad g t) = data t.
Proof. unfold accumulate_grad. by destruct (requires_grad t). Qed.

Lemma grad_sgd_update (lr : F) (t : tensor) : grad (sgd_update lr t) = grad t.
Proof. unfold sgd_update. by destruct (grad t) eqn:E. Qed.

(** ** Epochs of the loops of cells 4 and 6 *)

Lemma cell4_epoch_eq (a b x y : loc) (optimizer : Optimizer) (w : world) :
  cell4_epoch a b x y optimizer w
  = epoch_of (linear_loss a b x y manual_loss) optimizer []
      [EvBackward; EvStep; EvZeroGrad] w.
Proof.
  unfold epoch_of, linear_loss, manual_loss. run.
  destruct (read (heap w) a) as [va|]; simpl; [|done].
  destruct (read (heap w) b) as [vb|]; simpl; [|done].
  destruct (read (heap w) x) as [vx|]; simpl; [|done].
  destruct (t_mul vb vx) as [bx|]; simpl; [|done].
  destruct (t_add va bx) as [yhat|]; simpl; [|done].
  destruct (read (heap w) y) as [vy|]; simpl; [|done].
  destruct (t_sub vy yhat) as [error|]; simpl; [|done].
  destruct (backward _ (heap w)) as [h|]; simpl; [|done].
  by rewrite <- !app_assoc.
Qed.

Lemma cell6_epoch_eq (a b x y : loc) (loss_fn : Loss) (optimizer : Optimizer) (w : world) :
  cell6_epoch a b x y loss_fn optimizer w
  = epoch_of (linear_loss a b x y loss_fn) optimizer []
      [EvLoss; EvBackward; EvStep; EvZeroGrad] w.
Proof.
  unfold epoch_of, linear_loss. run.
  destruct (read (heap w) a) as [va|]; simpl; [|done].
  destruct (read (heap w) b) as [vb|]; simpl; [|done].
  destruct (read (heap w) x) as [vx|]; simpl; [|done].
  destruct (t_mul vb vx) as [bx|]; simpl; [|done].
  destruct (t_add va bx) as [yhat|]; simpl; [|done].
  destruct (read (heap w) y) as [vy|]; simpl; [|done].
  destruct (loss_fn vy yhat) as [loss|]; simpl; [|done].
  destruct (backward _ (heap w)) as [h|]; simpl; [|done].
  by rewrite <- !app_assoc.
Qed.

Lemma linear_loss_agree (L : loc → Prop) (a b x y : loc) (loss_fn : Loss)
    (h1 h2 : gmap loc tensor) :
  L a → L b → L x → L y → agree L h1 h2 →
  linear_loss a b x y loss_fn h1 = linear_loss a b x y loss_fn h2.
Proof.
  intros La Lb Lx Ly E. unfold linear_loss, read.
  by rewrite (E a La), (E b Lb), (E x Lx), (E y Ly).
Qed.

(** An epoch with an SGD optimizer, run on heaps that agree on [L], returns
    the same loss and leaves heaps that agree on [L], provided the loss reads
    inside [L] only. *)
Lemma epoch_of_agree (L : loc → Prop) (lossf : gmap loc tensor → option node)
    (params : list loc) (lr : F) (ms1 ms2 : list modid) (tr1 tr2 : list event)
    (w1 w2 : world) :
  (∀ h1 h2, agree L h1 h2 → lossf h1 = lossf h2) →
  agree L (heap w1) (heap w2) →
  sim (λ w1' w2', agree L (heap w1') (heap w2')) eq
    (epoch_of lossf (SGD params lr) ms1 tr1 w1)
    (epoch_of lossf (SGD params lr) ms2 tr2 w2).
Proof.
  intros Hloss E. unfold epoch_of, sim. rewrite (Hloss _ _ E).
  destruct (lossf (heap w2)) as [loss|]; simpl; [|done].
  unfold backward. destruct (_ && _); simpl; [|done].
  split; [done|]. intros l Hl.
  rewrite !zero_grads_each, !sgd_step_each.
  do 2 apply alter_each_local.
  apply (alter_each_local (λ c, accumulate_grad c.2) fst). by apply E.
Qed.

Lemma cell10_epoch_epoch_of (model : Module) (loss_fn : Loss) (optimizer : Optimizer)
    (x y : loc) (w : world) :
  cell10_epoch model loss_fn optimizer x y w
  = epoch_of (loss_at model loss_fn x y) optimizer (modules model)
      [EvTrain; EvForward; EvLoss; EvBackward; EvStep; EvZeroGrad] w.
Proof. by rewrite cell10_epoch_eq. Qed.

(** The loss of a model reads the inputs and what the model's [forward] reads. *)
Lemma loss_at_agree (L : loc → Prop) (model : Module) (loss_fn : Loss) (x y : loc)
    (h1 h2 : gmap loc tensor) :
  L x → L y → (∀ v, forward model v h1 = forward model v h2) →
  agree L h1 h2 →
  loss_at model loss_fn x y h1 = loss_at model loss_fn x y h2.
Proof.
  intros Lx Ly Hfwd E. unfold loss_at, read. rewrite (E x Lx), (E y Ly).
  destruct (h2 !! x) as [tx|]; simpl; [|done]. by rewrite Hfwd.
Qed.

Lemma ManualLinearRegression_agree (L : loc → Prop) (self : modid) (a b : loc)
    (v : node) (h1 h2 : gmap loc tensor) :
  L a → L b → agree L h1 h2 →
  forward (ManualLinearRegression self a b) v h1
  = forward (ManualLinearRegression self a b) v h2.
Proof. intros La Lb E. simpl. unfold read. by rewrite (E a La), (E b Lb). Qed.

Lemma Sequential_Linear_agree (L : loc → Prop) (self self' : modid)
    (weight bias : loc) (v : node) (h1 h2 : gmap loc tensor) :
  L weight → L bias → agree L h1 h2 →
  forward (Sequential self [Linear self' weight bias]) v h1
  = forward (Sequential self [Linear self' weight bias]) v h2.
Proof. intros Lw Lb E. simpl. unfold read. by rewrite (E weight Lw), (E bias Lb). Qed.

(** What holds of the inline body's outcomes holds of the closure's. *)
Lemma train_step_sim (R : world → world → Prop) (model : Module) (loss_fn : Loss)
    (optimizer : Optimizer) (x y : loc) (w1 w2 : world) :
  sim R eq (cell10_epoch model loss_fn optimizer x y w1)
           (cell10_epoch model loss_fn optimizer x y w2) →
  sim R eq (make_train_step model loss_fn optimizer x y w1)
           (make_train_step model loss_fn optimizer x y w2).
Proof.
  rewrite <- !train_step_inline. unfold sim.
  destruct (make_train_step _ _ _ _ _ w1) as [[v1 w1']|],
    (make_train_step _ _ _ _ _ w2) as [[v2 w2']|]; simpl; try done.
  intros [[= ->] HR]. done.
Qed.

Lemma Forall2_eq_inv {A} (l1 l2 : list A) : Forall2 eq l1 l2 → l1 = l2.
Proof. induction 1; by simplify_eq. Qed.

Lemma sim_history {A} (R : world → world → Prop)
    (o1 o2 : option (list A * world)) :
  sim R (Forall2 eq) o1 o2 → sim R eq o1 o2.
Proof.
  unfold sim. destruct o1 as [[l1 w1]|], o2 as [[l2 w2]|]; try done.
  intros [Hl HR]. split; [|done]. by apply Forall2_eq_inv.
Qed.

(** ** Gradients after [optimizer.zero_grad()] *)

Lemma cleared_zero_ (t : tensor) : cleared (zero_ t).
Proof.
  unfold cleared, zero_. simpl. destruct (grad t) as [g|]; simpl; [|done].
  induction g; simpl; by constructor.
Qed.

Lemma zero_grads_cleared (params : list loc) (h : gmap loc tensor) (p : loc) (t : tensor) :
  p ∈ params → zero_grads params h !! p = Some t → cleared t.
Proof.
  unfold zero_grads. intros Hin.
  cut (∀ (ps : list loc) (h : gmap loc tensor),
         (p ∈ ps ∨ ∀ t', h !! p = Some t' → cleared t') →
         foldl (λ h q, alter zero_ q h) h ps !! p = Some t → cleared t).
  { intros Hcut. apply Hcut. by left. }
  clear. induction ps as [|q ps IH]; intros h Hp; simpl.
  - destruct Hp as [Hp|Hp]; [by apply elem_of_nil in Hp|]. apply Hp.
  - apply IH. destruct Hp as [Hp|Hp].
    + apply elem_of_cons in Hp as [->|Hp]; [|by left]. right. intros t'.
      rewrite lookup_alter_eq. destruct (h !! q) as [t0|]; simpl; [|done].
      intros [= <-]. apply cleared_zero_.
    + right. intros t'. rewrite lookup_alter. case_decide as E; [|apply Hp].
      subst q. destruct (h !! p) as [t0|]; simpl; [|done].
      intros [= <-]. apply cleared_zero_.
Qed.

(** At the end of a [train_step] call every parameter the optimizer manages
    is cleared. *)
Lemma train_step_clears_managed (model : Module) (loss_fn : Loss)
    (optimizer : Optimizer) (x y p : loc) (w w' : world) (v : F) (t : tensor) :
  make_train_step model loss_fn optimizer x y w = Some (v, w') →
  p ∈ param_groups optimizer → heap w' !! p = Some t → cleared t.
Proof.
  rewrite train_step_eq.
  destruct (loss_at model loss_fn x y (heap w)) as [loss|]; simpl; [|done].
  destruct (backward loss (heap w)) as [h|]; simpl; [|done].
  destruct (item loss) as [v'|]; simpl; [|done].
  intros [= -> <-]. simpl. apply zero_grads_cleared.
Qed.

(** ** The training flag *)

Lemma lookup_set_training (ms : list modid) (m : gmap modid bool) (i : modid) :
  set_training ms m !! i = if decide (i ∈ ms) then Some true else m !! i.
Proof.
  unfold set_training. revert m. induction ms as [|j ms IH]; intros m; simpl.
  - done.
  - rewrite IH. destruct (decide (i = j)) as [->|Hij].
    + rewrite lookup_insert_eq. rewrite (decide_True (P := j ∈ j :: ms)) by left.
      by case_decide.
    + rewrite lookup_insert_ne by done.
      destruct (decide (i ∈ ms)) as [Hin|Hin].
      * by rewrite decide_True by (by right).
      * rewrite decide_False; [done|]. by intros [?|?]%elem_of_cons.
Qed.

(** ** What the backward pass leaves at a tensor *)

Lemma alter_each_lookup {C} (g : C → tensor → tensor) (k : C → loc) (cs : list C)
    (h : gmap loc tensor) (l : loc) :
  alter_each g k cs h !! l
  = (λ t, foldl (λ t c, g c t) t (filter (λ c, k c = l) cs)) <$> h !! l.
Proof.
  unfold alter_each. revert h. induction cs as [|c cs IH]; intros h; simpl.
  - by destruct (h !! l).
  - rewrite IH, lookup_alter, filter_cons.
    destruct (decide (k c = l)) as [E|E]; [|done].
    subst l. by destruct (h !! k c).
Qed.

Lemma accumulate_grads_received (cs : list (loc * list F)) (t : tensor) :
  foldl (λ t c, accumulate_grad c.2 t) t cs
  = {| data := data t;
       grad := if requires_grad t then received (grad t) cs.*2 else grad t;
       requires_grad := requires_grad t |}.
Proof.
  revert t. induction cs as [|c cs IH]; intros [d g r]; simpl.
  - by destruct r.
  - rewrite IH. unfold accumulate_grad. simpl. by destruct r.
Qed.

Lemma backward_lookup (loss : node) (h hb : gmap loc tensor) (l : loc) :
  backward loss h = Some hb →
  hb !! l
  = (λ t, {| data := data t;
             grad := if requires_grad t
                     then received (grad t)
                            (filter (λ c, c.1 = l) (grad_fn loss [fone])).*2
                     else grad t;
             requires_grad := requires_grad t |}) <$> h !! l.
Proof.
  intros Hb. apply backward_each in Hb as ->.
  rewrite alter_each_lookup. destruct (h !! l) as [t|]; simpl; [|done].
  by rewrite accumulate_grads_received.
Qed.

Lemma backward_needs_grad (loss : node) (h hb : gmap loc tensor) :
  backward loss h = Some hb → needs_grad loss = true.
Proof. unfold backward. by destruct (needs_grad loss). Qed.

Lemma requires_grad_zero_ (t : tensor) : requires_grad (zero_ t) = requires_grad t.
Proof. done. Qed.

(** * The claims *)

(** C1: for every model, loss function and optimizer the closure returned by
    [make_train_step] does, on [(x, y)], one cycle in this order: training
    mode, forward pass on [x], loss of [(y, yhat)], backward pass of that
    loss, one optimizer step, zeroing of the gradients; it returns the loss
    as a number, and it raises exactly when one of these raises.  When it
    returns [v] and leaves the state [w']:
    - the model and all its descendants are in training mode, no other
      module's flag has changed;
    - [yhat] is the model's prediction for the tensor at [x], and [loss]
      the loss function's result on the tensor at [y] and [yhat], both
      evaluated on the heap the call was entered with; [loss] requires grad
      and its one element is [v];
    - [h], the heap after the backward pass, holds at every tensor that
      requires grad the gradient it held, with what the backward pass of
      [loss] sent to that tensor stored or added, and every other tensor as
      it was;
    - the optimizer's step ran on [h], once; after it the gradient of each
      of the optimizer's parameters was cleared, nothing else was written;
    - the six calls were made in this order, and no other. *)
Theorem make_train_step_cycle (model : Module) (loss_fn : Loss)
    (optimizer : Optimizer) (x y : loc) (w : world) :
  make_train_step model loss_fn optimizer x y w =
    (vx ← read (heap w) x;
     yhat ← forward model vx (heap w);
     vy ← read (heap w) y;
     loss ← loss_fn vy yhat;
     h ← backward loss (heap w);
     v ← item loss;
     Some (v, {| heap := zero_grads (param_groups optimizer) (step_rule optimizer h);
                 modes := set_training (modules model) (modes w);
                 trace := trace w ++ [EvTrain; EvForward; EvLoss; EvBackward;
                                      EvStep; EvZeroGrad] |}))
  ∧ ∀ v w', make_train_step model loss_fn optimizer x y w = Some (v, w') →
      ∃ tx ty yhat loss h,
        heap w !! x = Some tx ∧ heap w !! y = Some ty
        ∧ forward model (leaf x tx) (heap w) = Some yhat
        ∧ loss_fn (leaf y ty) yhat = Some loss
        ∧ value loss = [v] ∧ needs_grad loss = true
        ∧ (∀ i, i ∈ modules model → modes w' !! i = Some true)
        ∧ (∀ i, i ∉ modules model → modes w' !! i = modes w !! i)
        ∧ (∀ l, h !! l =
                  (λ t, {| data := data t;
                           grad := if requires_grad t
                                   then received (grad t)
                                          (filter (λ c, c.1 = l)
                                             (grad_fn loss [fone])).*2
                                   else grad t;
                           requires_grad := requires_grad t |}) <$> heap w !! l)
        ∧ (∀ l, data <$> heap w' !! l = data <$> step_rule optimizer h !! l)
        ∧ (∀ l, requires_grad <$> heap w' !! l
                = requires_grad <$> step_rule optimizer h !! l)
        ∧ (∀ p t, p ∈ param_groups optimizer → heap w' !! p = Some t → cleared t)
        ∧ (∀ l, l ∉ param_groups optimizer →
             heap w' !! l = step_rule optimizer h !! l)
        ∧ trace w' = trace w ++ [EvTrain; EvForward; EvLoss; EvBackward;
                                 EvStep; EvZeroGrad].
Proof.
  assert (Heq : make_train_step model loss_fn optimizer x y w =
    (vx ← read (heap w) x;
     yhat ← forward model vx (heap w);
     vy ← read (heap w) y;
     loss ← loss_fn vy yhat;
     h ← backward loss (heap w);
     v ← item loss;
     Some (v, {| heap := zero_grads (param_groups optimizer) (step_rule optimizer h);
                 modes := set_training (modules model) (modes w);
                 trace := trace w ++ [EvTrain; EvForward; EvLoss; EvBackward;
                                      EvStep; EvZeroGrad] |}))).
  { rewrite train_step_eq. unfold loss_at, after_cycle.
    destruct (read (heap w) x) as [vx|]; simpl; [|done].
    destruct (forward model vx (heap w)) as [yhat|]; simpl; [|done].
    by destruct (read (heap w) y) as [vy|]. }
  split; [exact Heq|]. intros v w'. rewrite Heq. unfold read.
  destruct (heap w !! x) as [tx|] eqn:Hx; simpl; [|done].
  destruct (forward model (leaf x tx) (heap w)) as [yhat|] eqn:Hf; simpl; [|done].
  destruct (heap w !! y) as [ty|] eqn:Hy; simpl; [|done].
  destruct (loss_fn (leaf y ty) yhat) as [loss|] eqn:Hloss; simpl; [|done].
  destruct (backward loss (heap w)) as [h|] eqn:Hb; simpl; [|done].
  destruct (item loss) as [v'|] eqn:Hv; simpl; [|done].
  intros [= -> <-]. simpl. exists tx, ty, yhat, loss, h.
  split_and!; try done.
  - by apply item_value.
  - by eapply backward_needs_grad.
  - intros i Hi. by rewrite lookup_set_training, decide_True.
  - intros i Hi. by rewrite lookup_set_training, decide_False.
  - intros l. by apply backward_lookup.
  - intros l. rewrite zero_grads_each. by apply alter_each_field.
  - intros l. rewrite zero_grads_each. by apply alter_each_field.
  - intros p t. apply zero_grads_cleared.
  - intros l Hl. rewrite zero_grads_each. apply alter_each_untouched.
    intros c Hc E. simpl in E. by subst c.
Qed.

(** C4: called on any input [x], a [ManualLinearRegression] whose parameters
    currently hold [a0] and [b0] returns the prediction [a0 + b0 * x],
    element by element, and changes no tensor. *)
Theorem ManualLinearRegression_forward (self : modid) (a b : loc)
    (ta tb : tensor) (a0 b0 : F) (x : node) (w : world) :
  heap w !! a = Some ta → data ta = [a0] →
  heap w !! b = Some tb → data tb = [b0] →
  ∃ yhat w',
    call (ManualLinearRegression self a b) x w = Some (yhat, w')
    ∧ value yhat = map (λ xi, fadd a0 (fmul b0 xi)) (value x)
    ∧ heap w' = heap w.
Proof.
  intros Ha Da Hb Db. unfold call, ManualLinearRegression, read. simpl.
  rewrite Ha, Hb. simpl. unfold t_mul. simpl. rewrite Db.
  rewrite broadcastable_scalar_l. simpl. unfold t_add. simpl. rewrite Da.
  rewrite broadcastable_scalar_l. simpl.
  eexists _, _. split_and!; [done| |done]. simpl.
  by rewrite !bzip_scalar_l, map_map.
Qed.

(** C5: one [optimizer.step()] of an SGD optimizer applies the update rule
    once to each parameter it was constructed with: a parameter holding a
    gradient [g] comes out as [p + (-lr) * g], its gradient kept; a parameter
    without gradient and every tensor outside the set are left as they were. *)
Theorem sgd_step_updates_each_parameter_once (params : list loc) (lr : F) (w : world) :
  NoDup params →
  ∃ w', step (SGD params lr) w = Some ((), w')
    ∧ trace w' = trace w ++ [EvStep]
    ∧ (∀ p t g, p ∈ params → heap w !! p = Some t → grad t = Some g →
         heap w' !! p =
           Some {| data := zip_with (λ x d, fmadd x (fneg lr) d) (data t) g;
                   grad := Some g;
                   requires_grad := requires_grad t |})
    ∧ (∀ p t, p ∈ params → heap w !! p = Some t → grad t = None →
         heap w' !! p = Some t)
    ∧ (∀ l, l ∉ params → heap w' !! l = heap w !! l).
Proof.
  intros Hnd. eexists. split; [done|]. simpl. split; [done|].
  rewrite sgd_step_each. split_and!.
  - intros p t g Hp Ht Hg. rewrite alter_each_once, Ht by done.
    simpl. unfold sgd_update. by rewrite Hg.
  - intros p t Hp Ht Hg. rewrite alter_each_once, Ht by done.
    simpl. by rewrite sgd_update_no_grad.
  - intros l Hl. apply alter_each_untouched. intros c Hc E. simpl in E. by subst c.
Qed.


(** C7: in a call of [train_step(x, y)] the backward pass runs on the heap
    the call was entered with; it writes no tensor's data and leaves every
    tensor that does not require grad as it was.  Zeroing the gradients
    writes no data and touches the optimizer's parameters only.  So data
    changes in [optimizer.step()] only and gradients change in
    [loss.backward()], in [optimizer.zero_grad()] and in whatever the
    optimizer's step does to them, which for SGD is nothing: with an SGD
    optimizer the step writes no gradient and only its own parameters'
    data, and every tensor that does not require grad and holds none, as the
    notebook's [x_train_tensor] and [y_train_tensor], comes out of the call
    as it went in.  An input that requires grad is not covered: the backward
    pass gives it a gradient. *)
Theorem train_step_frame (model : Module) (loss_fn : Loss) (optimizer : Optimizer)
    (x y : loc) (w w' : world) (v : F) :
  make_train_step model loss_fn optimizer x y w = Some (v, w') →
  ∃ loss h_backward,
    loss_at model loss_fn x y (heap w) = Some loss
    ∧ backward loss (heap w) = Some h_backward
    ∧ heap w' = zero_grads (param_groups optimizer) (step_rule optimizer h_backward)
    ∧ (∀ l, data <$> h_backward !! l = data <$> heap w !! l)
    ∧ (∀ l t, heap w !! l = Some t → requires_grad t = false →
         h_backward !! l = Some t)
    ∧ (∀ l, data <$> heap w' !! l = data <$> step_rule optimizer h_backward !! l)
    ∧ (∀ l, l ∉ param_groups optimizer →
         heap w' !! l = step_rule optimizer h_backward !! l)
    ∧ (∀ l t, heap w !! l = Some t → requires_grad t = false → grad t = None →
         step_rule optimizer h_backward !! l = h_backward !! l →
         heap w' !! l = Some t)
    ∧ (∀ params lr, optimizer = SGD params lr →
         (∀ l, grad <$> step_rule optimizer h_backward !! l = grad <$> h_backward !! l)
         ∧ (∀ l, l ∉ params →
              step_rule optimizer h_backward !! l = h_backward !! l)
         ∧ (∀ l, l ∉ params → data <$> heap w' !! l = data <$> heap w !! l)
         ∧ (∀ l t, heap w !! l = Some t → requires_grad t = false →
              grad t = None → heap w' !! l = Some t)).
Proof.
  rewrite train_step_eq.
  destruct (loss_at model loss_fn x y (heap w)) as [loss|]; simpl; [|done].
  destruct (backward loss (heap w)) as [hb|] eqn:Hb; simpl; [|done].
  destruct (item loss) as [v'|]; simpl; [|done].
  intros [= -> <-]. simpl. exists loss, hb.
  apply backward_each in Hb as Hhb.
  assert (Hdata_b : ∀ l, data <$> hb !! l = data <$> heap w !! l).
  { intros l. rewrite Hhb. apply alter_each_field. intros c t.
    apply data_accumulate_grad. }
  assert (Hfrozen : ∀ l t, heap w !! l = Some t → requires_grad t = false →
            hb !! l = Some t).
  { intros l t Hl Hr. rewrite Hhb. apply alter_each_fixed; [done|].
    intros; by apply accumulate_grad_frozen. }
  assert (Hdata_z : ∀ ps l (h : gmap loc tensor),
            data <$> zero_grads ps h !! l = data <$> h !! l).
  { intros ps l h. rewrite zero_grads_each. by apply alter_each_field. }
  assert (Hout_z : ∀ ps l (h : gmap loc tensor), l ∉ ps →
            zero_grads ps h !! l = h !! l).
  { intros ps l h Hl. rewrite zero_grads_each. apply alter_each_untouched.
    intros c Hc E. simpl in E. by subst c. }
  assert (Hout_s : ∀ ps lr l (h : gmap loc tensor), l ∉ ps →
            sgd_step ps lr h !! l = h !! l).
  { intros ps lr l h Hl. rewrite sgd_step_each. apply alter_each_untouched.
    intros c Hc E. simpl in E. by subst c. }
  split_and!; try done.
  - intros l Hl. by apply Hout_z.
  - intros l t Hl Hr Hg Hstep. rewrite zero_grads_each.
    apply alter_each_fixed; [|by intros; apply zero_no_grad].
    rewrite Hstep. by apply Hfrozen.
  - intros params lr ->. simpl. split_and!.
    + intros l. rewrite sgd_step_each. apply alter_each_field. intros c t.
      apply grad_sgd_update.
    + intros l Hl. by apply Hout_s.
    + intros l Hl. by rewrite Hdata_z, Hout_s, Hdata_b.
    + intros l t Hl Hr Hg. rewrite zero_grads_each.
      apply alter_each_fixed; [|by intros; apply zero_no_grad].
      rewrite sgd_step_each.
      apply alter_each_fixed; [|by intros; apply sgd_update_no_grad].
      by apply Hfrozen.
Qed.

(** C6: one call of [train_step] per epoch does what one pass of the inline
    body does, and the loop over [train_step] leaves the same state (hence
    the same parameters) and records the same losses as the inline loop,
    whatever model, loss function and optimizer the two share. *)
Theorem train_step_loop_is_inline_loop (model : Module) (loss_fn : Loss)
    (optimizer : Optimizer) (x_train_tensor y_train_tensor : loc)
    (n_epochs : nat) (w : world) :
  (λ r : F * world, ([r.1], r.2)) <$>
    make_train_step model loss_fn optimizer x_train_tensor y_train_tensor w
  = cell10_epoch model loss_fn optimizer x_train_tensor y_train_tensor w
  ∧
  (λ r : list F * world, (map (λ v, [v]) r.1, r.2)) <$>
    cell18_loop model loss_fn optimizer x_train_tensor y_train_tensor n_epochs w
  = cell10_loop model loss_fn optimizer x_train_tensor y_train_tensor n_epochs w.
Proof.
  split; [apply train_step_inline|].
  unfold cell18_loop, cell10_loop.
  pose proof (for_range_sim eq (λ (v : F) vl, vl = [v])
    (make_train_step model loss_fn optimizer x_train_tensor y_train_tensor)
    (cell10_epoch model loss_fn optimizer x_train_tensor y_train_tensor)) as Hsim.
  specialize (Hsim ltac:(
    intros w1 ? <-; rewrite <- train_step_inline;
    by destruct (make_train_step _ _ _ _ _ w1) as [[??]|])).
  specialize (Hsim n_epochs [] [] w w ltac:(constructor) eq_refl).
  unfold sim in Hsim.
  destruct (for_range n_epochs (make_train_step _ _ _ _ _) [] w) as [[l1 w1]|],
    (for_range n_epochs (cell10_epoch _ _ _ _ _) [] w) as [[l2 w2]|];
    simpl; try done.
  destruct Hsim as [Hl <-]. do 2 f_equal.
  induction Hl as [|v vl l1 l2 -> _ IH]; simpl; [done|]. by rewrite IH.
Qed.

(** C9: every number in [losses] is the loss of the model as it was on
    entry to its epoch's [train_step] call, that is before that call's
    optimizer step, turned into a number by [item]; the loop appends one
    per epoch, so [losses] has length [n_epochs] after it. *)
Theorem train_step_returns_entry_loss (model : Module) (loss_fn : Loss)
    (optimizer : Optimizer) (x y : loc) (n_epochs : nat) (w w' : world)
    (losses : list F) :
  cell18_loop model loss_fn optimizer x y n_epochs w = Some (losses, w') →
  length losses = n_epochs
  ∧ ∀ i v, losses !! i = Some v →
      ∃ wi wi' loss,
        cell18_loop model loss_fn optimizer x y i w = Some (take i losses, wi)
        ∧ make_train_step model loss_fn optimizer x y wi = Some (v, wi')
        ∧ loss_at model loss_fn x y (heap wi) = Some loss
        ∧ item loss = Some v.
Proof.
  unfold cell18_loop. intros Hrun.
  apply for_range_history in Hrun as (new & -> & Hlen & Hnew). simpl.
  split; [done|]. intros i v Hi.
  destruct (Hnew i v Hi) as (wi & wi' & Hrun & Hstep).
  exists wi, wi'. pose proof Hstep as Hstep'. rewrite train_step_eq in Hstep'.
  destruct (loss_at model loss_fn x y (heap wi)) as [loss|]; simpl in Hstep'; [|done].
  destruct (backward loss (heap wi)) as [h|]; simpl in Hstep'; [|done].
  destruct (item loss) as [v'|] eqn:Hitem; simpl in Hstep'; [|done].
  exists loss. by simplify_eq.
Qed.

(** C2: on label and prediction vectors of equal length the loss function
    made by [nn.MSELoss(reduction='mean')] returns the one-element tensor
    holding the mean of the squared elementwise errors, the very tensor of
    the manual [error = y - yhat; loss = (error ** 2).mean()]; so the loop
    of cell 6 and the loop of cell 4, started in the same state, raise
    together or compute the same loss at every epoch and leave the same
    heap, hence the same parameters. *)
Theorem MSELoss_mean_is_manual_loss (y yhat : node) (a b x_train_tensor
    y_train_tensor : loc) (lr : F) (n_epochs : nat) (w : world) :
  length (value y) = length (value yhat) →
  (∃ loss,
     MSELoss ReductionMean y yhat = Some loss
     ∧ manual_loss y yhat = Some loss
     ∧ value loss =
         [fdiv (tsum (zip_with (λ yi pi, fmul (fsub yi pi) (fsub yi pi))
                        (value y) (value yhat)))
               (of_nat (length (value y)))])
  ∧ (λ r : list (list F) * world, (r.1, heap r.2)) <$>
      cell6 a b x_train_tensor y_train_tensor lr n_epochs w
    = (λ r : list (list F) * world, (r.1, heap r.2)) <$>
      cell4 a b x_train_tensor y_train_tensor lr n_epochs w.
Proof.
  intros Hlen. split.
  - unfold MSELoss, manual_loss, t_sub.
    rewrite broadcastable_same_length by done. simpl.
    eexists. split_and!; [done..|]. simpl.
    rewrite bzip_same_length by done.
    rewrite length_map, length_zip_with, <- Hlen, Nat.min_id. do 3 f_equal.
    clear. generalize (value y) as ys.
    induction (value yhat) as [|p ps IH]; intros [|y0 ys]; simpl; [done..|].
    by rewrite IH.
  - unfold cell6, cell4.
    pose proof (for_range_sim (λ w1 w2, agree (λ _, True) (heap w1) (heap w2)) eq
      (cell6_epoch a b x_train_tensor y_train_tensor (MSELoss ReductionMean)
         (SGD [a; b] lr))
      (cell4_epoch a b x_train_tensor y_train_tensor (SGD [a; b] lr))) as Hsim.
    specialize (Hsim ltac:(
      intros w1 w2 E; rewrite cell6_epoch_eq, cell4_epoch_eq;
      apply epoch_of_agree; [|done];
      intros h1 h2 E'; by apply (linear_loss_agree (λ _, True)))).
    specialize (Hsim n_epochs [] [] w w ltac:(constructor) ltac:(by intros l _)).
    unfold sim in Hsim.
    destruct (for_range n_epochs (cell6_epoch _ _ _ _ _ _) [] w) as [[l1 w1]|],
      (for_range n_epochs (cell4_epoch _ _ _ _ _) [] w) as [[l2 w2]|];
      simpl; try done.
    destruct Hsim as [Hl E]. apply Forall2_eq_inv in Hl as ->.
    do 2 f_equal. apply map_eq. intros l. by apply E.
Qed.

(** C10: the training loops are functions of the parameters and the data
    alone.  Take two sessions whose heaps hold the same tensors for the
    parameters and for [x_train_tensor] and [y_train_tensor], whatever else
    they hold and whatever ran before.  Then each loop, run in the two
    sessions, raises in both or computes the same loss at every epoch and
    ends with the same tensors at these places: the loops of cells 4, 6 and
    10, and the loop of cell 18 over a [Sequential] of one [Linear] layer
    with the optimizer of cell 10. *)
Theorem training_loops_deterministic (self self' self'' : modid)
    (a b weight bias x_train_tensor y_train_tensor : loc)
    (lr : F) (n_epochs : nat) (w1 w2 : world) :
  let L := (.∈ [a; b; weight; bias; x_train_tensor; y_train_tensor]) in
  let same := λ w1' w2' : world, agree L (heap w1') (heap w2') in
  agree L (heap w1) (heap w2) →
  sim same eq
    (cell4 a b x_train_tensor y_train_tensor lr n_epochs w1)
    (cell4 a b x_train_tensor y_train_tensor lr n_epochs w2)
  ∧ sim same eq
      (cell6 a b x_train_tensor y_train_tensor lr n_epochs w1)
      (cell6 a b x_train_tensor y_train_tensor lr n_epochs w2)
  ∧ sim same eq
      (cell10 self a b x_train_tensor y_train_tensor lr n_epochs w1)
      (cell10 self a b x_train_tensor y_train_tensor lr n_epochs w2)
  ∧ sim same eq
      (cell18_loop (Sequential self' [Linear self'' weight bias])
         (MSELoss ReductionMean) (SGD [a; b] lr)
         x_train_tensor y_train_tensor n_epochs w1)
      (cell18_loop (Sequential self' [Linear self'' weight bias])
         (MSELoss ReductionMean) (SGD [a; b] lr)
         x_train_tensor y_train_tensor n_epochs w2).
Proof.
  intros L same E.
  assert (La : L a) by (unfold L; here).
  assert (Lb : L b) by (unfold L; here).
  assert (Lw : L weight) by (unfold L; here).
  assert (Lbias : L bias) by (unfold L; here).
  assert (Lx : L x_train_tensor) by (unfold L; here).
  assert (Ly : L y_train_tensor) by (unfold L; here).
  unfold cell4, cell6, cell10, cell10_loop, cell18_loop. split_and!.
  - eapply sim_history, for_range_sim; [|constructor|done].
    intros v1 v2 E'. rewrite !cell4_epoch_eq. apply epoch_of_agree; [|done].
    intros h1 h2. by apply linear_loss_agree.
  - eapply sim_history, for_range_sim; [|constructor|done].
    intros v1 v2 E'. rewrite !cell6_epoch_eq. apply epoch_of_agree; [|done].
    intros h1 h2. by apply linear_loss_agree.
  - eapply sim_history, for_range_sim; [|constructor|done].
    intros v1 v2 E'. rewrite !cell10_epoch_epoch_of. apply epoch_of_agree; [|done].
    intros h1 h2 Eh. apply (loss_at_agree L); [done..| |done].
    intros v. by apply (ManualLinearRegression_agree L).
  - eapply sim_history, for_range_sim; [|constructor|done].
    intros v1 v2 E'. apply train_step_sim.
    rewrite !cell10_epoch_epoch_of. apply epoch_of_agree; [|done].
    intros h1 h2 Eh. apply (loss_at_agree L); [done..| |done].
    intros v. by apply (Sequential_Linear_agree L).
Qed.

(** * Further properties of the notebook's code *)

(** ** Loops, again *)

Lemma for_range_ext {A} (body1 body2 : M A) :
  (∀ w, body1 w = body2 w) →
  ∀ n acc w, for_range n body1 acc w = for_range n body2 acc w.
Proof.
  intros Hb. induction n as [|n IH]; intros acc w; simpl; [done|].
  unfold mbind, M_bind. rewrite Hb. destruct (body2 w) as [[r w1]|]; [|done].
  apply IH.
Qed.

Lemma for_range_trace {A} (body : M A) (tr : list event) :
  (∀ w r w', body w = Some (r, w') → trace w' = trace w ++ tr) →
  ∀ n acc w rs w', for_range n body acc w = Some (rs, w') →
    trace w' = trace w ++ concat (replicate n tr).
Proof.
  intros Hb. induction n as [|n IH]; intros acc w rs w'; simpl.
  - intros [= _ <-]. by rewrite app_nil_r.
  - unfold mbind, M_bind. destruct (body w) as [[r w1]|] eqn:E; [|done].
    intros Hrest. rewrite (IH _ _ _ _ Hrest), (Hb _ _ _ E). by rewrite <- app_assoc.
Qed.

Lemma for_range_preserved {A} (body : M A) (P : world → Prop) :
  (∀ w r w', P w → body w = Some (r, w') → P w') →
  ∀ n acc w rs w', P w → for_range n body acc w = Some (rs, w') → P w'.
Proof.
  intros Hb. induction n as [|n IH]; intros acc w rs w' HP; simpl.
  - by intros [= _ <-].
  - unfold mbind, M_bind. destruct (body w) as [[r w1]|] eqn:E; [|done].
    apply IH. by eapply Hb.
Qed.

(** ** What a cycle leaves of the heap *)

Lemma requires_grad_accumulate_grad (g : list F) (t : tensor) :
  requires_grad (accumulate_grad g t) = requires_grad t.
Proof. unfold accumulate_grad. by destruct (requires_grad t) eqn:E. Qed.

Lemma requires_grad_sgd_update (lr : F) (t : tensor) :
  requires_grad (sgd_update lr t) = requires_grad t.
Proof. unfold sgd_update. by destruct (grad t). Qed.

Lemma alter_each_id {C} (g : C → tensor → tensor) (k : C → loc) (cs : list C)
    (h : gmap loc tensor) :
  (∀ c t, c ∈ cs → h !! k c = Some t → g c t = t) → alter_each g k cs h = h.
Proof.
  unfold alter_each. induction cs as [|c cs IH]; intros Hid; simpl; [done|].
  rewrite alter_id.
  - apply IH. intros c' t Hc. apply Hid. by apply list_elem_of_further.
  - intros t. apply Hid. apply list_elem_of_here.
Qed.

(** Backward pass, SGD step and zeroing, on the heap. *)
Lemma cycle_heap_frame (params : list loc) (lr : F) (loss : node)
    (h hb : gmap loc tensor) :
  backward loss h = Some hb →
  (∀ l, l ∉ params →
     data <$> zero_grads params (sgd_step params lr hb) !! l = data <$> h !! l)
  ∧ (∀ l, requires_grad <$> zero_grads params (sgd_step params lr hb) !! l
          = requires_grad <$> h !! l)
  ∧ (∀ l t, h !! l = Some t → requires_grad t = false → grad t = None →
       zero_grads params (sgd_step params lr hb) !! l = Some t).
Proof.
  intros Hb. apply backward_each in Hb as ->.
  rewrite zero_grads_each, sgd_step_each. split_and!.
  - intros l Hl. rewrite (alter_each_field _ _ data) by done.
    rewrite alter_each_untouched by (intros c Hc E; simpl in E; by subst c).
    apply alter_each_field. intros c t. apply data_accumulate_grad.
  - intros l. rewrite (alter_each_field _ _ requires_grad) by done.
    rewrite (alter_each_field _ _ requires_grad)
      by (intros c t; apply requires_grad_sgd_update).
    apply alter_each_field. intros c t. apply requires_grad_accumulate_grad.
  - intros l t Hl Hrg Hg.
    apply alter_each_fixed; [|by intros; apply zero_no_grad].
    apply alter_each_fixed; [|by intros; apply sgd_update_no_grad].
    apply alter_each_fixed; [done|]. intros; by apply accumulate_grad_frozen.
Qed.

(** A tensor is read for its data and its [requires_grad] flag. *)
Lemma read_same (h1 h2 : gmap loc tensor) (l : loc) :
  data <$> h1 !! l = data <$> h2 !! l →
  requires_grad <$> h1 !! l = requires_grad <$> h2 !! l →
  read h1 l = read h2 l.
Proof.
  unfold read. destruct (h1 !! l) as [t1|], (h2 !! l) as [t2|]; simpl; try done.
  intros [= Hd] [= Hr]. unfold leaf. by rewrite Hd, Hr.
Qed.

Lemma loss_at_ManualLinearRegression (self : modid) (a b x y : loc) (loss_fn : Loss)
    (h : gmap loc tensor) :
  loss_at (ManualLinearRegression self a b) loss_fn x y h
  = linear_loss a b x y loss_fn h.
Proof.
  unfold loss_at, linear_loss. simpl.
  destruct (read h x) as [vx|], (read h a) as [va|], (read h b) as [vb|];
    simpl; try done.
  destruct (t_mul vb vx) as [bx|]; simpl; [|done].
  by destruct (t_add va bx).
Qed.

Lemma epoch_of_ext (lossf1 lossf2 : gmap loc tensor → option node)
    (optimizer : Optimizer) (ms : list modid) (tr : list event) (w : world) :
  (∀ h, lossf1 h = lossf2 h) →
  epoch_of lossf1 optimizer ms tr w = epoch_of lossf2 optimizer ms tr w.
Proof. intros E. unfold epoch_of. by rewrite E. Qed.

(** X1: the loop of cell 10, which predicts with a [ManualLinearRegression]
    model, and the loop of cell 6, which writes [a + b * x_train_tensor]
    out, raise together or compute the same loss at every epoch and leave
    the same heap. *)
Theorem module_loop_is_handwritten_loop (self : modid)
    (a b x_train_tensor y_train_tensor : loc) (lr : F) (n_epochs : nat) (w : world) :
  (λ r : list (list F) * world, (r.1, heap r.2)) <$>
    cell10 self a b x_train_tensor y_train_tensor lr n_epochs w
  = (λ r : list (list F) * world, (r.1, heap r.2)) <$>
    cell6 a b x_train_tensor y_train_tensor lr n_epochs w.
Proof.
  unfold cell10, cell10_loop, cell6.
  pose proof (for_range_sim (λ w1 w2, agree (λ _, True) (heap w1) (heap w2)) eq
    (cell10_epoch (ManualLinearRegression self a b) (MSELoss ReductionMean)
       (SGD (parameters (ManualLinearRegression self a b)) lr)
       x_train_tensor y_train_tensor)
    (cell6_epoch a b x_train_tensor y_train_tensor (MSELoss ReductionMean)
       (SGD [a; b] lr))) as Hsim.
  specialize (Hsim ltac:(
    intros w1 w2 E; rewrite cell10_epoch_epoch_of, cell6_epoch_eq;
    rewrite (epoch_of_ext _
               (linear_loss a b x_train_tensor y_train_tensor (MSELoss ReductionMean)))
      by (intros; apply loss_at_ManualLinearRegression);
    apply epoch_of_agree; [|done];
    intros h1 h2 E'; by apply (linear_loss_agree (λ _, True)))).
  specialize (Hsim n_epochs [] [] w w ltac:(constructor) ltac:(by intros l _)).
  unfold sim in Hsim.
  destruct (for_range n_epochs (cell10_epoch _ _ _ _ _) [] w) as [[l1 w1]|],
    (for_range n_epochs (cell6_epoch _ _ _ _ _ _) [] w) as [[l2 w2]|];
    simpl; try done.
  destruct Hsim as [Hl E]. apply Forall2_eq_inv in Hl as ->.
  do 2 f_equal. apply map_eq. intros l. by apply E.
Qed.

(** X2: [train_step(x, y)] returns exactly when the forward pass and the
    loss function return and the loss is a one-element tensor that requires
    grad; in every other case it raises. *)
Theorem train_step_runs_iff_scalar_loss (model : Module) (loss_fn : Loss)
    (optimizer : Optimizer) (x y : loc) (w : world) :
  is_Some (make_train_step model loss_fn optimizer x y w)
  ↔ ∃ loss, loss_at model loss_fn x y (heap w) = Some loss
            ∧ needs_grad loss = true
            ∧ length (value loss) = 1.
Proof.
  rewrite train_step_eq.
  destruct (loss_at model loss_fn x y (heap w)) as [loss|]; simpl.
  - unfold backward, item.
    destruct (needs_grad loss) eqn:Hng; simpl.
    + case_bool_decide as Hlen; simpl.
      * destruct (value loss) as [|v [|]] eqn:Hv; simplify_eq/=.
        split; [intros _; exists loss; by rewrite Hv|intros _; by eexists].
      * split; [by intros [? [=]]|]. intros (loss' & [= <-] & _ & Hlen'). done.
    + split; [by intros [? [=]]|]. intros (loss' & [= <-] & Hng' & _). congruence.
  - split; [by intros [? [=]]|]. by intros (loss' & [=] & _).
Qed.

(** X3: a loop of [n_epochs] calls of [train_step] makes the six framework
    calls of a cycle [n_epochs] times over, in order, and no other: one
    optimizer step and one zeroing per epoch. *)
Theorem train_step_loop_trace (model : Module) (loss_fn : Loss)
    (optimizer : Optimizer) (x y : loc) (n_epochs : nat) (w w' : world)
    (losses : list F) :
  cell18_loop model loss_fn optimizer x y n_epochs w = Some (losses, w') →
  trace w' = trace w ++ concat (replicate n_epochs
               [EvTrain; EvForward; EvLoss; EvBackward; EvStep; EvZeroGrad]).
Proof.
  unfold cell18_loop. apply for_range_trace. intros w1 r w2.
  rewrite train_step_eq.
  destruct (loss_at model loss_fn x y (heap w1)) as [loss|]; simpl; [|done].
  destruct (backward loss (heap w1)) as [h|]; simpl; [|done].
  destruct (item loss) as [v|]; simpl; [|done].
  by intros [= _ <-].
Qed.

(** X4: an [optimizer.step()] taken while no parameter holds a gradient, as
    before the first backward pass, changes nothing, and neither does
    [optimizer.zero_grad()]; the manual update [a -= lr * a.grad] raises
    there. *)
Theorem sgd_step_without_gradients (params : list loc) (lr : F) (a b : loc)
    (w : world) :
  (∀ p t, p ∈ params → heap w !! p = Some t → grad t = None) →
  (∃ w', step (SGD params lr) w = Some ((), w') ∧ heap w' = heap w)
  ∧ (∃ w', zero_grad (SGD params lr) w = Some ((), w') ∧ heap w' = heap w)
  ∧ (a ∈ params → manual_update lr a b (heap w) = None).
Proof.
  intros Hnone. split_and!.
  - eexists. split; [done|]. simpl. rewrite sgd_step_each.
    apply alter_each_id. intros c t Hc Ht. apply sgd_update_no_grad. by eapply Hnone.
  - eexists. split; [done|]. simpl. rewrite zero_grads_each.
    apply alter_each_id. intros c t Hc Ht. apply zero_no_grad. by eapply Hnone.
  - intros Ha. unfold manual_update, manual_sub.
    destruct (heap w !! a) as [ta|] eqn:E; simpl; [|done].
    by rewrite (Hnone a ta Ha E).
Qed.

(** X5: the class of cell 13 wrapped around a layer and the [Sequential] of
    cell 16 built from that layer are interchangeable: they have the same
    parameters, and a training loop behaves the same with either, whatever
    the loss function and the optimizer. *)
Theorem layer_model_is_sequential_model (self : modid) (linear : Module)
    (loss_fn : Loss) (optimizer : Optimizer) (x y : loc) (n_epochs : nat)
    (w : world) :
  parameters (LayerLinearRegression self linear)
  = parameters (Sequential self [linear])
  ∧ cell18_loop (LayerLinearRegression self linear) loss_fn optimizer x y n_epochs w
    = cell18_loop (Sequential self [linear]) loss_fn optimizer x y n_epochs w
  ∧ cell10_loop (LayerLinearRegression self linear) loss_fn optimizer x y n_epochs w
    = cell10_loop (Sequential self [linear]) loss_fn optimizer x y n_epochs w.
Proof.
  assert (Hloss : ∀ h, loss_at (LayerLinearRegression self linear) loss_fn x y h
                       = loss_at (Sequential self [linear]) loss_fn x y h) by done.
  assert (Hmods : modules (LayerLinearRegression self linear)
                  = modules (Sequential self [linear])).
  { simpl. by rewrite app_nil_r. }
  split_and!.
  - simpl. by rewrite app_nil_r.
  - unfold cell18_loop. apply for_range_ext. intros w1.
    rewrite !train_step_eq, Hloss. unfold after_cycle. by rewrite Hmods.
  - unfold cell10_loop. apply for_range_ext. intros w1.
    rewrite !cell10_epoch_eq, Hloss. unfold after_cycle. by rewrite Hmods.
Qed.

Lemma train_step_loop_frame_heap (model : Module) (loss_fn : Loss)
    (params : list loc) (lr : F) (x y : loc) (n_epochs : nat) (w w' : world)
    (losses : list F) :
  cell18_loop model loss_fn (SGD params lr) x y n_epochs w = Some (losses, w') →
  (∀ l, l ∉ params → data <$> heap w' !! l = data <$> heap w !! l)
  ∧ (∀ l, requires_grad <$> heap w' !! l = requires_grad <$> heap w !! l)
  ∧ (∀ l t, heap w !! l = Some t → requires_grad t = false → grad t = None →
       heap w' !! l = Some t).
Proof.
  unfold cell18_loop. intros Hrun.
  eapply (for_range_preserved _ (λ w1,
    (∀ l, l ∉ params → data <$> heap w1 !! l = data <$> heap w !! l)
    ∧ (∀ l, requires_grad <$> heap w1 !! l = requires_grad <$> heap w !! l)
    ∧ (∀ l t, heap w !! l = Some t → requires_grad t = false → grad t = None →
         heap w1 !! l = Some t))); [|split_and!; done|exact Hrun].
  intros w1 r w2 (Hd & Hr & Hx). rewrite train_step_eq.
  destruct (loss_at model loss_fn x y (heap w1)) as [loss|]; simpl; [|done].
  destruct (backward loss (heap w1)) as [hb|] eqn:Hb; simpl; [|done].
  destruct (item loss) as [v|]; simpl; [|done].
  intros [= _ <-]. simpl.
  destruct (cycle_heap_frame params lr loss _ _ Hb) as (Hd' & Hr' & Hx').
  split_and!.
  - intros l Hl. by rewrite Hd', Hd.
  - intros l. by rewrite Hr', Hr.
  - intros l t Hl Hrg Hg. apply Hx'; [|done..]. by apply Hx.
Qed.

(** X6: however many epochs the [train_step] loop runs with an SGD
    optimizer, it changes the data of no tensor outside the optimizer's
    parameters, the [requires_grad] flag of no tensor at all, and nothing
    of a tensor that does not require grad and holds none, as the training
    data. *)
Theorem train_step_loop_frame (model : Module) (loss_fn : Loss)
    (params : list loc) (lr : F) (x y : loc) (n_epochs : nat) (w w' : world)
    (losses : list F) :
  cell18_loop model loss_fn (SGD params lr) x y n_epochs w = Some (losses, w') →
  (∀ l, l ∉ params → data <$> heap w' !! l = data <$> heap w !! l)
  ∧ (∀ l, requires_grad <$> heap w' !! l = requires_grad <$> heap w !! l)
  ∧ (∀ l t, heap w !! l = Some t → requires_grad t = false → grad t = None →
       heap w' !! l = Some t).
Proof. apply train_step_loop_frame_heap. Qed.

(** X7: when the optimizer does not manage the parameters of the model that
    [train_step] was made for, as in cell 18, where the model is the
    [Sequential] of cell 16 and the optimizer still the one of cell 10, the
    loop never moves [weight] and [bias], and records the same loss at
    every epoch. *)
Theorem unmanaged_model_never_trains (self self' : modid)
    (weight bias x y : loc) (loss_fn : Loss) (params : list loc) (lr : F)
    (n_epochs : nat) (w w' : world) (losses : list F) :
  weight ∉ params → bias ∉ params → x ∉ params → y ∉ params →
  cell18_loop (Sequential self [Linear self' weight bias]) loss_fn
    (SGD params lr) x y n_epochs w = Some (losses, w') →
  data <$> heap w' !! weight = data <$> heap w !! weight
  ∧ data <$> heap w' !! bias = data <$> heap w !! bias
  ∧ ∀ i j v v', losses !! i = Some v → losses !! j = Some v' → v = v'.
Proof.
  intros Hw Hb Hx Hy Hrun.
  set (model := Sequential self [Linear self' weight bias]) in *.
  assert (Hprefix : ∀ i v, losses !! i = Some v →
    ∃ loss, loss_at model loss_fn x y (heap w) = Some loss ∧ item loss = Some v).
  { intros i v Hi. unfold cell18_loop in Hrun.
    apply for_range_history in Hrun as (new & -> & _ & Hnew). simpl in Hi.
    destruct (Hnew i v Hi) as (wi & wi' & Hrun_i & Hstep).
    destruct (train_step_loop_frame_heap model loss_fn params lr x y i w wi
                (take i new) Hrun_i) as (Hd & Hr & _).
    assert (Hread : ∀ l, l ∉ params → read (heap wi) l = read (heap w) l).
    { intros l Hl. apply read_same; [by apply Hd|apply Hr]. }
    rewrite train_step_eq in Hstep.
    assert (Hsame : loss_at model loss_fn x y (heap wi)
                    = loss_at model loss_fn x y (heap w)).
    { unfold loss_at, model. simpl.
      by rewrite (Hread x Hx), (Hread y Hy), (Hread weight Hw), (Hread bias Hb). }
    rewrite Hsame in Hstep.
    destruct (loss_at model loss_fn x y (heap w)) as [loss|]; simpl in Hstep; [|done].
    destruct (backward loss (heap wi)) as [hb|]; simpl in Hstep; [|done].
    destruct (item loss) as [v0|] eqn:Hitem; simpl in Hstep; [|done].
    exists loss. by simplify_eq. }
  destruct (train_step_loop_frame_heap model loss_fn params lr x y n_epochs w w'
              losses Hrun) as [Hd _].
  split_and!; [by apply Hd..|].
  intros i j v v' Hi Hj.
  destruct (Hprefix i v Hi) as (loss & Hl & Hv).
  destruct (Hprefix j v' Hj) as (loss' & Hl' & Hv').
  by simplify_eq.
Qed.

(** ** The loop of cell 10 on well-shaped tensors *)

Lemma for_range_runs {A} (body : M A) (I J : world → Prop) :
  (∀ w, I w → ∃ r w', body w = Some (r, w') ∧ J w') →
  (∀ w, J w → I w) →
  ∀ n acc w, I w →
    ∃ rs w', for_range n body acc w = Some (rs, w')
             ∧ length rs = length acc + n ∧ I w' ∧ (0 < n → J w').
Proof.
  intros Hbody HJI. induction n as [|n IH]; intros acc w HI; simpl.
  - exists acc, w. split_and!; [done|lia|done|lia].
  - unfold mbind, M_bind. destruct (Hbody w HI) as (r & w1 & -> & HJ).
    destruct (IH (acc ++ [r]) w1 (HJI _ HJ)) as (rs & w' & Hrun & Hlen & HI' & HJ').
    exists rs, w'. split_and!; [done| |done|].
    + rewrite Hlen, length_app. simpl. lia.
    + intros _. destruct n as [|n]; [|apply HJ'; lia].
      simpl in Hrun. unfold mret, M_ret in Hrun. by simplify_eq.
Qed.

Lemma length_sum_to_size_1 (g : list F) : length (sum_to_size 1 g) = 1.
Proof. unfold sum_to_size. by case_bool_decide. Qed.

Lemma zeroed_scalar_parameter (t : tensor) : zeroed t → scalar_parameter t.
Proof. intros (Hd & Hr & Hg). split_and!; [done..|]. intros g. rewrite Hg. by intros [= <-]. Qed.

Lemma with_gradient_scalar_parameter (t : tensor) : with_gradient t → scalar_parameter t.
Proof.
  intros (Hd & Hr & g & Hg & Hlen). split_and!; [done..|].
  intros g'. rewrite Hg. by intros [= <-].
Qed.

Lemma accumulate_grad_with_gradient (g : list F) (t : tensor) :
  length g = 1 → scalar_parameter t → with_gradient (accumulate_grad g t).
Proof.
  intros Hlen (Hd & Hr & Hg). unfold accumulate_grad. rewrite Hr.
  split_and!; [done..|]. simpl. eexists. split; [done|].
  destruct (grad t) as [g0|]; [|done].
  rewrite length_zip_with, (Hg g0 eq_refl), Hlen. done.
Qed.

Lemma sgd_update_with_gradient (lr : F) (t : tensor) :
  with_gradient t → with_gradient (sgd_update lr t).
Proof.
  intros (Hd & Hr & g & Hg & Hlen). unfold sgd_update. rewrite Hg.
  split_and!; simpl; [|done|by exists g].
  by rewrite length_zip_with, Hd, Hlen.
Qed.

Lemma zero_zeroed (t : tensor) : with_gradient t → zeroed (zero_ t).
Proof.
  intros (Hd & Hr & g & Hg & Hlen). unfold zero_. split_and!; simpl; [done..|].
  rewrite Hg. simpl. by destruct g as [|g0 [|]].
Qed.

Lemma zeroed_with_gradient (t : tensor) : zeroed t → with_gradient t.
Proof. intros (Hd & Hr & Hg). split_and!; [done..|]. by eexists. Qed.

Lemma cell10_epoch_runs (self : modid) (a b x y : loc) (lr : F) (w : world)
    (ta tb tx ty : tensor) :
  heap w !! a = Some ta → scalar_parameter ta →
  heap w !! b = Some tb → scalar_parameter tb →
  heap w !! x = Some tx → plain_data tx →
  heap w !! y = Some ty → plain_data ty →
  length (data tx) = length (data ty) →
  ∃ v w' ta' tb',
    cell10_epoch (ManualLinearRegression self a b) (MSELoss ReductionMean)
      (SGD [a; b] lr) x y w = Some ([v], w')
    ∧ heap w' !! a = Some ta' ∧ zeroed ta'
    ∧ heap w' !! b = Some tb' ∧ zeroed tb'
    ∧ heap w' !! x = Some tx ∧ heap w' !! y = Some ty.
Proof.
  intros Ha Pa Hb Pb Hx [Rx Gx] Hy [Ry Gy] Hlen.
  assert (Hxa : x ≠ a) by (intros ->; destruct Pa as (_ & ? & _); congruence).
  assert (Hxb : x ≠ b) by (intros ->; destruct Pb as (_ & ? & _); congruence).
  assert (Hya : y ≠ a) by (intros ->; destruct Pa as (_ & ? & _); congruence).
  assert (Hyb : y ≠ b) by (intros ->; destruct Pb as (_ & ? & _); congruence).
  rewrite cell10_epoch_eq. unfold loss_at, read. simpl. unfold read.
  rewrite Hx, Ha, Hb, Hy. simpl.
  pose proof Pa as (Da & Ra & _). pose proof Pb as (Db & Rb & _).
  destruct (data ta) as [|a0 [|]] eqn:Ea; simplify_eq/=.
  destruct (data tb) as [|b0 [|]] eqn:Eb; simplify_eq/=.
  unfold t_mul, t_add. simpl. rewrite Ea, Eb.
  rewrite !broadcastable_scalar_l. simpl.
  rewrite !bzip_scalar_l.
  rewrite broadcastable_scalar_l. simpl. rewrite Ra, Rb, Rx. simpl.
  unfold MSELoss, t_sub. simpl.
  rewrite broadcastable_same_length by (by rewrite !length_map). simpl.
  rewrite Ry. simpl. unfold backward. simpl.
  match goal with
  | |- context [accumulate (accumulate _ (a, ?ga)) (b, ?gb)] =>
      assert (La : length ga = 1) by apply length_sum_to_size_1;
      assert (Lb : length gb = 1) by apply length_sum_to_size_1;
      generalize dependent gb; generalize dependent ga
  end.
  intros ga La gb Lb.
  unfold after_cycle, accumulate, zero_grads, sgd_step. simpl.
  assert (Hx' : ∀ (l : loc) (h : gmap loc tensor) f1 f2 f3 f4 f5 f6,
            l ≠ a → l ≠ b →
            alter f1 b (alter f2 a (alter f3 b (alter f4 a
              (alter f5 b (alter f6 a h))))) !! l = h !! l).
  { intros l h f1 f2 f3 f4 f5 f6 Hla Hlb.
    by rewrite !lookup_alter_ne by done. }
  pose proof (accumulate_grad_with_gradient ga ta La Pa) as Wa.
  destruct (decide (a = b)) as [->|Hab].
  - assert (tb = ta) as -> by congruence.
    pose proof (accumulate_grad_with_gradient gb _ Lb
                  (with_gradient_scalar_parameter _ Wa)) as Wb.
    do 2 eexists.
    exists (zero_ (zero_ (sgd_update lr (sgd_update lr
              (accumulate_grad gb (accumulate_grad ga ta)))))).
    eexists. split; [done|]. simpl.
    rewrite !lookup_alter_eq, Ha, !Hx', Hx, Hy by done. simpl.
    assert (zeroed (zero_ (zero_ (sgd_update lr (sgd_update lr
              (accumulate_grad gb (accumulate_grad ga ta))))))).
    { apply zero_zeroed, zeroed_with_gradient, zero_zeroed.
      by do 2 apply sgd_update_with_gradient. }
    done.
  - pose proof (accumulate_grad_with_gradient gb tb Lb Pb) as Wb.
    do 2 eexists.
    exists (zero_ (sgd_update lr (accumulate_grad ga ta))),
           (zero_ (sgd_update lr (accumulate_grad gb tb))).
    split; [reflexivity|]. simpl. rewrite (Hx' x), (Hx' y), Hx, Hy by done.
    assert (Ha' : ∀ (h : gmap loc tensor) f1 f2 f3 f4 f5 f6,
              alter f1 b (alter f2 a (alter f3 b (alter f4 a
                (alter f5 b (alter f6 a h))))) !! a
              = f2 <$> (f4 <$> (f6 <$> h !! a))).
    { intros. rewrite lookup_alter_ne, lookup_alter_eq by done.
      rewrite lookup_alter_ne, lookup_alter_eq by done.
      by rewrite lookup_alter_ne, lookup_alter_eq by done. }
    assert (Hb' : ∀ (h : gmap loc tensor) f1 f2 f3 f4 f5 f6,
              alter f1 b (alter f2 a (alter f3 b (alter f4 a
                (alter f5 b (alter f6 a h))))) !! b
              = f1 <$> (f3 <$> (f5 <$> h !! b))).
    { intros. rewrite lookup_alter_eq, lookup_alter_ne by done.
      rewrite lookup_alter_eq, lookup_alter_ne by done.
      by rewrite lookup_alter_eq, lookup_alter_ne by done. }
    rewrite Ha', Hb', Ha, Hb. simpl.
    split_and!; try done.
    + by apply zero_zeroed, sgd_update_with_gradient.
    + by apply zero_zeroed, sgd_update_with_gradient.
Qed.


Lemma cell10_runs (self : modid) (a b x y : loc) (lr : F) (n_epochs : nat)
    (w : world) (ta tb tx ty : tensor) :
  heap w !! a = Some ta → scalar_parameter ta →
  heap w !! b = Some tb → scalar_parameter tb →
  heap w !! x = Some tx → plain_data tx →
  heap w !! y = Some ty → plain_data ty →
  length (data tx) = length (data ty) →
  ∃ losses w' ta' tb',
    cell10 self a b x y lr n_epochs w = Some (losses, w')
    ∧ length losses = n_epochs
    ∧ heap w' !! a = Some ta' ∧ scalar_parameter ta' ∧ (0 < n_epochs → zeroed ta')
    ∧ heap w' !! b = Some tb' ∧ scalar_parameter tb' ∧ (0 < n_epochs → zeroed tb')
    ∧ heap w' !! x = Some tx ∧ heap w' !! y = Some ty.
Proof.
  intros Ha Pa Hb Pb Hx Px Hy Py Hlen.
  pose (I := λ (P : tensor → Prop) (w1 : world),
    ∃ ta1 tb1, heap w1 !! a = Some ta1 ∧ P ta1 ∧ heap w1 !! b = Some tb1 ∧ P tb1
               ∧ heap w1 !! x = Some tx ∧ heap w1 !! y = Some ty).
  destruct (for_range_runs
    (cell10_epoch (ManualLinearRegression self a b) (MSELoss ReductionMean)
       (SGD [a; b] lr) x y) (I scalar_parameter) (I zeroed)) with (n := n_epochs)
    (acc := @nil (list F)) (w := w)
    as (losses & w' & Hrun & Hl & (ta' & tb' & Ha' & Pa' & Hb' & Pb' & Hx' & Hy') & Hz).
  - intros w1 (ta1 & tb1 & Ha1 & Pa1 & Hb1 & Pb1 & Hx1 & Hy1).
    destruct (cell10_epoch_runs self a b x y lr w1 ta1 tb1 tx ty)
      as (v & w2 & ta2 & tb2 & Hrun & ?); try done.
    exists [v], w2. split; [done|]. exists ta2, tb2. naive_solver.
  - intros w1 (ta1 & tb1 & Ha1 & Pa1 & Hb1 & Pb1 & Hx1 & Hy1).
    exists ta1, tb1. split_and!; try done; by apply zeroed_scalar_parameter.
  - by exists ta, tb.
  - exists losses, w', ta', tb'. split_and!; try done.
    + intros Hn. destruct (Hz Hn) as (ta2 & tb2 & ? & ? & ? & ? & _). by simplify_eq.
    + intros Hn. destruct (Hz Hn) as (ta2 & tb2 & ? & ? & ? & ? & _). by simplify_eq.
Qed.

(** X8: on one-element parameters that require grad and training data of
    equal length, the loop of cell 10 never raises, however many epochs it
    runs: it returns one loss per epoch, the parameters are still
    one-element parameters at the end, and the data tensors are as they
    were. *)
Theorem cell10_completes (self : modid) (a b x y : loc) (lr : F) (n_epochs : nat)
    (w : world) (ta tb tx ty : tensor) :
  heap w !! a = Some ta → scalar_parameter ta →
  heap w !! b = Some tb → scalar_parameter tb →
  heap w !! x = Some tx → plain_data tx →
  heap w !! y = Some ty → plain_data ty →
  length (data tx) = length (data ty) →
  ∃ losses w',
    cell10 self a b x y lr n_epochs w = Some (losses, w')
    ∧ length losses = n_epochs
    ∧ (∃ ta', heap w' !! a = Some ta' ∧ scalar_parameter ta')
    ∧ (∃ tb', heap w' !! b = Some tb' ∧ scalar_parameter tb')
    ∧ heap w' !! x = Some tx ∧ heap w' !! y = Some ty.
Proof.
  intros Ha Pa Hb Pb Hx Px Hy Py Hlen.
  destruct (cell10_runs self a b x y lr n_epochs w ta tb tx ty)
    as (losses & w' & ta' & tb' & ? & ? & ? & ? & _ & ? & ? & _ & ? & ?); try done.
  exists losses, w'. split_and!; try done; by eexists.
Qed.

(** X9: after at least one epoch of the loop of cell 10 the gradients of
    [a] and [b] are cleared, that is absent or all zero: every epoch's
    backward pass gives both parameters a gradient and
    [optimizer.zero_grad()] clears it. *)
Theorem cell10_gradients_end_cleared (self : modid) (a b x y : loc) (lr : F)
    (n_epochs : nat) (w : world) (ta tb tx ty : tensor) :
  heap w !! a = Some ta → scalar_parameter ta →
  heap w !! b = Some tb → scalar_parameter tb →
  heap w !! x = Some tx → plain_data tx →
  heap w !! y = Some ty → plain_data ty →
  length (data tx) = length (data ty) →
  0 < n_epochs →
  ∃ losses w' ta' tb',
    cell10 self a b x y lr n_epochs w = Some (losses, w')
    ∧ heap w' !! a = Some ta' ∧ cleared ta'
    ∧ heap w' !! b = Some tb' ∧ cleared tb'.
Proof.
  intros Ha Pa Hb Pb Hx Px Hy Py Hlen Hn.
  destruct (cell10_runs self a b x y lr n_epochs w ta tb tx ty)
    as (losses & w' & ta' & tb' & ? & _ & ? & _ & Za & ? & _ & Zb & _); try done.
  exists losses, w', ta', tb'. split_and!; try done.
  - destruct (Za Hn) as (_ & _ & Hg). unfold cleared. rewrite Hg. by repeat constructor.
  - destruct (Zb Hn) as (_ & _ & Hg). unfold cleared. rewrite Hg. by repeat constructor.
Qed.

Lemma linear_loss_mismatch (a b x y : loc) (r : reduction) (h : gmap loc tensor)
    (ta tb tx ty : tensor) :
  h !! a = Some ta → length (data ta) = 1 →
  h !! b = Some tb → length (data tb) = 1 →
  h !! x = Some tx → h !! y = Some ty →
  length (data tx) ≠ length (data ty) →
  length (data tx) ≠ 1 → length (data ty) ≠ 1 →
  linear_loss a b x y (MSELoss r) h = None.
Proof.
  intros Ha Da Hb Db Hx Hy Hne Hx1 Hy1. unfold linear_loss, read.
  rewrite Ha, Hb, Hx, Hy. simpl.
  destruct (data ta) as [|a0 [|]] eqn:Ea; simplify_eq/=.
  destruct (data tb) as [|b0 [|]] eqn:Eb; simplify_eq/=.
  unfold t_mul, t_add. simpl. rewrite Ea, Eb.
  rewrite broadcastable_scalar_l. simpl. rewrite broadcastable_scalar_l. simpl.
  unfold MSELoss, t_sub. simpl. rewrite !bzip_scalar_l.
  unfold broadcastable. rewrite !length_map.
  by rewrite !bool_decide_eq_false_2 by done.
Qed.

Lemma for_range_raises {A} (body : M A) (n : nat) (acc : list A) (w : world) :
  body w = None → 0 < n → for_range n body acc w = None.
Proof.
  intros Hb Hn. destruct n as [|n]; [lia|]. simpl. unfold mbind, M_bind. by rewrite Hb.
Qed.

(** X10: feature and label columns of shapes (N,1) and (M,1) with N and M
    different and both more than 1, each kept as the list of its elements,
    make every variant of the training step raise, whatever the reduction
    of the loss: [train_step], and the loops of cells 4, 6 and 10 in their
    first epoch.  No variant truncates or pads.  Labels of shape (M,),
    which PyTorch would broadcast against an (N,1) prediction, are not
    columns and not meant here. *)
Theorem mismatched_columns_raise (self : modid) (a b x y : loc) (r : reduction)
    (optimizer : Optimizer) (lr : F) (n_epochs : nat) (w : world)
    (ta tb tx ty : tensor) :
  heap w !! a = Some ta → length (data ta) = 1 →
  heap w !! b = Some tb → length (data tb) = 1 →
  heap w !! x = Some tx → heap w !! y = Some ty →
  length (data tx) ≠ length (data ty) →
  length (data tx) ≠ 1 → length (data ty) ≠ 1 →
  0 < n_epochs →
  make_train_step (ManualLinearRegression self a b) (MSELoss r) optimizer x y w = None
  ∧ cell4 a b x y lr n_epochs w = None
  ∧ cell6 a b x y lr n_epochs w = None
  ∧ cell10 self a b x y lr n_epochs w = None.
Proof.
  intros Ha Da Hb Db Hx Hy Hne Hx1 Hy1 Hn.
  assert (Hloss : ∀ r', linear_loss a b x y (MSELoss r') (heap w) = None).
  { intros r'. by eapply linear_loss_mismatch. }
  split_and!.
  - by rewrite train_step_eq, loss_at_ManualLinearRegression, Hloss.
  - unfold cell4. apply for_range_raises; [|done]. rewrite cell4_epoch_eq.
    unfold epoch_of.
    assert (linear_loss a b x y manual_loss (heap w) = None) as ->
      by exact (Hloss ReductionMean).
    done.
  - unfold cell6. apply for_range_raises; [|done]. rewrite cell6_epoch_eq.
    unfold epoch_of. by rewrite Hloss.
  - unfold cell10, cell10_loop. apply for_range_raises; [|done].
    by rewrite cell10_epoch_eq, loss_at_ManualLinearRegression, Hloss.
Qed.

(** ** A linear layer in place of the hand-made model *)

Lemma bzip_comm (f : F → F → F) (u v : list F) :
  (∀ p q, f p q = f q p) → bzip f u v = bzip f v u.
Proof.
  intros Hf.
  assert (Hz : ∀ u v : list F, zip_with f u v = zip_with f v u).
  { clear u v. induction u as [|p u IH]; intros [|q v]; simpl; [done..|].
    by rewrite Hf, IH. }
  assert (Hm : ∀ p (v : list F), map (f p) v = map (λ q, f q p) v).
  { intros p v'. apply map_ext. intros q. apply Hf. }
  destruct u as [|p [|p' u]], v as [|q [|q' v]]; unfold bzip;
    rewrite ?Hm; try done; try apply Hz.
Qed.

Lemma broadcastable_comm (u v : list F) : broadcastable u v = broadcastable v u.
Proof.
  unfold broadcastable.
  rewrite (bool_decide_ext (length u = length v) (length v = length u)) by done.
  by destruct (bool_decide (length v = length u)),
    (bool_decide (length u = 1)), (bool_decide (length v = 1)).
Qed.

Lemma linear_epoch_is_manual_epoch (self self' self'' : modid)
    (weight bias x y : loc) (lr : F) (w : world) (tx ty : tensor) :
  (∀ p q, fadd p q = fadd q p) → (∀ p q, fmul p q = fmul q p) →
  weight ≠ bias →
  heap w !! x = Some tx → requires_grad tx = false →
  heap w !! y = Some ty → requires_grad ty = false →
  (λ r : list F * world, (r.1, heap r.2)) <$>
    cell10_epoch (Sequential self [Linear self' weight bias])
      (MSELoss ReductionMean) (SGD [weight; bias] lr) x y w
  = (λ r : list F * world, (r.1, heap r.2)) <$>
    cell10_epoch (ManualLinearRegression self'' bias weight)
      (MSELoss ReductionMean) (SGD [bias; weight] lr) x y w.
Proof.
  intros Hadd Hmul Hne Hx Rx Hy Ry.
  rewrite !cell10_epoch_eq. unfold loss_at, read. simpl. unfold read.
  rewrite Hx, Hy. simpl.
  destruct (heap w !! weight) as [tw|] eqn:Hw, (heap w !! bias) as [tb|] eqn:Hb;
    simpl; try done.
  unfold t_mul, t_add. simpl.
  rewrite (broadcastable_comm (data tx) (data tw)).
  destruct (broadcastable (data tw) (data tx)); simpl; [|done].
  rewrite (bzip_comm fmul (data tx) (data tw)) by done.
  rewrite (broadcastable_comm (bzip fmul (data tw) (data tx)) (data tb)).
  destruct (broadcastable (data tb) _); simpl; [|done].
  rewrite (bzip_comm fadd (bzip fmul (data tw) (data tx)) (data tb)) by done.
  unfold MSELoss, t_sub. simpl.
  destruct (broadcastable (data ty) _); simpl; [|done].
  rewrite Rx, Ry. simpl. unfold backward. simpl.
  rewrite !orb_false_r.
  destruct (requires_grad tw), (requires_grad tb); simpl; try done.
  all: unfold accumulate, zero_grads, sgd_step; simpl; do 2 f_equal.
  all: apply map_eq; intros l; rewrite !lookup_alter.
  all: repeat case_decide; by simplify_eq.
Qed.


Lemma cell10_epoch_requires_grad (model : Module) (loss_fn : Loss)
    (params : list loc) (lr : F) (x y : loc) (w w' : world) (r : list F) :
  cell10_epoch model loss_fn (SGD params lr) x y w = Some (r, w') →
  ∀ l, requires_grad <$> heap w' !! l = requires_grad <$> heap w !! l.
Proof.
  rewrite cell10_epoch_eq.
  destruct (loss_at model loss_fn x y (heap w)) as [loss|]; simpl; [|done].
  destruct (backward loss (heap w)) as [hb|] eqn:Hb; simpl; [|done].
  intros [= _ <-]. simpl. by destruct (cycle_heap_frame params lr loss _ _ Hb) as (_ & ? & _).
Qed.

(** X11: in an arithmetic whose [+] and [*] commute, training the
    [Sequential] of one [Linear(1, 1)] layer with an optimizer over its own
    parameters is training [ManualLinearRegression] with [bias] for [a]
    and [weight] for [b]: the two loops raise together or compute the same
    loss at every epoch and leave the same heap. *)
Theorem linear_layer_trains_like_manual (self self' self'' : modid)
    (weight bias x y : loc) (lr : F) (n_epochs : nat) (w : world)
    (tx ty : tensor) :
  (∀ p q, fadd p q = fadd q p) → (∀ p q, fmul p q = fmul q p) →
  weight ≠ bias →
  heap w !! x = Some tx → requires_grad tx = false →
  heap w !! y = Some ty → requires_grad ty = false →
  (λ r : list (list F) * world, (r.1, heap r.2)) <$>
    cell10_loop (Sequential self [Linear self' weight bias])
      (MSELoss ReductionMean)
      (SGD (parameters (Sequential self [Linear self' weight bias])) lr)
      x y n_epochs w
  = (λ r : list (list F) * world, (r.1, heap r.2)) <$>
    cell10 self'' bias weight x y lr n_epochs w.
Proof.
  intros Hadd Hmul Hne Hx Rx Hy Ry. unfold cell10, cell10_loop. simpl.
  set (R := λ w1 w2 : world,
    heap w1 = heap w2
    ∧ requires_grad <$> heap w1 !! x = Some false
    ∧ requires_grad <$> heap w1 !! y = Some false).
  pose proof (for_range_sim R eq
    (cell10_epoch (Sequential self [Linear self' weight bias])
       (MSELoss ReductionMean) (SGD [weight; bias] lr) x y)
    (cell10_epoch (ManualLinearRegression self'' bias weight)
       (MSELoss ReductionMean) (SGD [bias; weight] lr) x y)) as Hsim.
  assert (Hbody : ∀ w1 w2, R w1 w2 →
    sim R eq
      (cell10_epoch (Sequential self [Linear self' weight bias])
         (MSELoss ReductionMean) (SGD [weight; bias] lr) x y w1)
      (cell10_epoch (ManualLinearRegression self'' bias weight)
         (MSELoss ReductionMean) (SGD [bias; weight] lr) x y w2)).
  { intros w1 w2 (Eh & Rx1 & Ry1).
    destruct (heap w1 !! x) as [tx1|] eqn:Hx1; simplify_eq/=.
    destruct (heap w1 !! y) as [ty1|] eqn:Hy1; simplify_eq/=.
    pose proof (linear_epoch_is_manual_epoch self self' self'' weight bias x y lr
                  w1 tx1 ty1 Hadd Hmul Hne Hx1 ltac:(done) Hy1 ltac:(done)) as E1.
    pose proof (epoch_of_agree (λ _, True)
      (loss_at (ManualLinearRegression self'' bias weight) (MSELoss ReductionMean) x y)
      [bias; weight] lr [self''] [self'']
      [EvTrain; EvForward; EvLoss; EvBackward; EvStep; EvZeroGrad]
      [EvTrain; EvForward; EvLoss; EvBackward; EvStep; EvZeroGrad] w1 w2) as E2.
    specialize (E2 ltac:(intros h1 h2 E; by rewrite (map_eq h1 h2 (λ l, E l I)))
                   ltac:(intros l _; by rewrite Eh)).
    rewrite <- !cell10_epoch_epoch_of in E2. unfold sim in E2 |- *.
    destruct (cell10_epoch (Sequential _ _) _ _ x y w1) as [[r1 w1']|] eqn:EL,
      (cell10_epoch (ManualLinearRegression _ _ _) _ _ x y w1) as [[r2 w2']|],
      (cell10_epoch (ManualLinearRegression _ _ _) _ _ x y w2) as [[r3 w3']|];
      simpl in E1; try done.
    injection E1 as -> Eh1. destruct E2 as [-> E2]. split; [done|]. split_and!.
    - rewrite Eh1. apply map_eq. intros l. by apply E2.
    - rewrite (cell10_epoch_requires_grad _ _ _ _ _ _ _ _ _ EL), Hx1. simpl. by f_equal.
    - rewrite (cell10_epoch_requires_grad _ _ _ _ _ _ _ _ _ EL), Hy1. simpl. by f_equal. }
  specialize (Hsim Hbody n_epochs [] [] w w ltac:(constructor)).
  specialize (Hsim ltac:(split_and!; [done|rewrite Hx; simpl; by f_equal
                                       |rewrite Hy; simpl; by f_equal])).
  unfold sim in Hsim.
  destruct (for_range n_epochs (cell10_epoch (Sequential _ _) _ _ _ _) [] w)
    as [[l1 w1]|],
    (for_range n_epochs (cell10_epoch (ManualLinearRegression _ _ _) _ _ _ _) [] w)
    as [[l2 w2]|]; simpl; try done.
  destruct Hsim as [Hl (Eh & _)]. apply Forall2_eq_inv in Hl as ->. by rewrite Eh.
Qed.

(** ** Epochs after epochs *)

Lemma for_range_add {A} (body : M A) (n m : nat) (acc : list A) (w : world) :
  for_range (n + m) body acc w
  = match for_range n body acc w with
    | Some (rs, w1) => for_range m body rs w1
    | None => None
    end.
Proof.
  revert acc w. induction n as [|n IH]; intros acc w; simpl; [done|].
  unfold mbind, M_bind. destruct (body w) as [[r w1]|]; [|done]. apply IH.
Qed.

Lemma for_range_acc {A} (body : M A) (n : nat) (acc : list A) (w : world) :
  for_range n body acc w
  = (λ r : list A * world, (acc ++ r.1, r.2)) <$> for_range n body [] w.
Proof.
  revert acc w. induction n as [|n IH]; intros acc w; simpl.
  - unfold mret, M_ret. simpl. by rewrite app_nil_r.
  - unfold mbind, M_bind. destruct (body w) as [[r w1]|]; [|done].
    rewrite (IH (acc ++ [r])), (IH ([] ++ [r])).
    destruct (for_range n body [] w1) as [[rs w2]|]; simpl; [|done].
    by rewrite <- app_assoc.
Qed.

Lemma for_range_compose {A} (body : M A) (n m : nat) (w : world) :
  for_range (n + m) body [] w
  = (r1 ← for_range n body [] w;
     r2 ← for_range m body [] r1.2;
     Some (r1.1 ++ r2.1, r2.2)).
Proof.
  rewrite for_range_add.
  destruct (for_range n body [] w) as [[rs w1]|]; simpl; [|done].
  rewrite for_range_acc. by destruct (for_range m body [] w1) as [[rs' w2]|].
Qed.

(** X12: epochs compose.  Running a loop for [n + m] epochs is running it
    for [n] epochs and then, from the state reached, for [m] more: the
    same final state, and the losses of the first run followed by those of
    the second.  So is re-running the loop cell without re-creating the
    parameters.  This holds of the [train_step] loop of cell 18 and of the
    loop of cell 4. *)
Theorem epochs_compose (model : Module) (loss_fn : Loss) (optimizer : Optimizer)
    (a b x y : loc) (lr : F) (n m : nat) (w : world) :
  cell18_loop model loss_fn optimizer x y (n + m) w
  = (r1 ← cell18_loop model loss_fn optimizer x y n w;
     r2 ← cell18_loop model loss_fn optimizer x y m r1.2;
     Some (r1.1 ++ r2.1, r2.2))
  ∧ cell4 a b x y lr (n + m) w
    = (r1 ← cell4 a b x y lr n w;
       r2 ← cell4 a b x y lr m r1.2;
       Some (r1.1 ++ r2.1, r2.2)).
Proof. split; apply for_range_compose. Qed.

(** X13: [model.train()] at the head of every epoch leaves, after any
    positive number of epochs of the [train_step] loop, the model and all
    its descendants in training mode, and never touches the flag of a
    module outside the model, however many epochs run. *)
Theorem train_step_loop_training_mode (model : Module) (loss_fn : Loss)
    (optimizer : Optimizer) (x y : loc) (n_epochs : nat) (w w' : world)
    (losses : list F) :
  cell18_loop model loss_fn optimizer x y n_epochs w = Some (losses, w') →
  (0 < n_epochs → ∀ i, i ∈ modules model → modes w' !! i = Some true)
  ∧ (∀ i, i ∉ modules model → modes w' !! i = modes w !! i).
Proof.
  unfold cell18_loop. intros Hrun.
  assert (Hstep : ∀ w1 r w2,
    make_train_step model loss_fn optimizer x y w1 = Some (r, w2) →
    modes w2 = set_training (modules model) (modes w1)).
  { intros w1 r w2. rewrite train_step_eq.
    destruct (loss_at model loss_fn x y (heap w1)) as [loss|]; simpl; [|done].
    destruct (backward loss (heap w1)) as [h|]; simpl; [|done].
    destruct (item loss) as [v|]; simpl; [|done]. by intros [= _ <-]. }
  split.
  - intros Hn. destruct n_epochs as [|n]; [lia|]. simpl in Hrun.
    unfold mbind, M_bind in Hrun.
    destruct (make_train_step model loss_fn optimizer x y w) as [[r w1]|] eqn:E;
      [|done].
    eapply (for_range_preserved _
      (λ w2, ∀ i, i ∈ modules model → modes w2 !! i = Some true));
      [| |exact Hrun].
    + intros w2 r2 w3 _ E2 i Hi. rewrite (Hstep _ _ _ E2), lookup_set_training.
      by rewrite decide_True.
    + intros i Hi. rewrite (Hstep _ _ _ E), lookup_set_training.
      by rewrite decide_True.
  - eapply (for_range_preserved _
      (λ w2, ∀ i, i ∉ modules model → modes w2 !! i = modes w !! i));
      [|done|exact Hrun].
    intros w2 r2 w3 IH E2 i Hi. rewrite (Hstep _ _ _ E2), lookup_set_training.
    rewrite decide_False by done. by apply IH.
Qed.

End facts.

(** * The session, evaluated *)



Example cell10_trains :
  heap Session.at_cell18 !! Session.a = Some (Tensor [21 # 20] (Some [0%Q]) true)
  ∧ heap Session.at_cell18 !! Session.b = Some (Tensor [171 # 100] (Some [0%Q]) true).
Proof. split; vm_compute; reflexivity. Qed.

(** C8: in cell 18 as the notebook runs it the optimizer still manages the
    parameters of cell 10's model, not those of the model being trained.
    At the end of the first [train_step] call the optimizer's parameters
    hold zero gradients, but [weight] and [bias] hold the gradients the
    backward pass gave them; the second epoch's backward pass adds to
    these, and the two parameters never move. *)
Theorem cell18_gradients_accumulate :
  let w1 := exec (Session.train_step Session.x_train_tensor Session.y_train_tensor)
              Session.at_cell18 in
  let w2 := exec (Session.train_step Session.x_train_tensor Session.y_train_tensor) w1 in
  param_groups Session.optimizer = [Session.a; Session.b]
  ∧ parameters Session.model = [Session.weight; Session.bias]
  ∧ Session.train_step Session.x_train_tensor Session.y_train_tensor Session.at_cell18
    = Some (17%Q, w1)
  ∧ heap w1 !! Session.a = Some (Tensor [21 # 20] (Some [0%Q]) true)
  ∧ heap w1 !! Session.b = Some (Tensor [171 # 100] (Some [0%Q]) true)
  ∧ heap w1 !! Session.weight = Some (Tensor [0%Q] (Some [(-13)%Q]) true)
  ∧ heap w1 !! Session.bias = Some (Tensor [0%Q] (Some [(-8)%Q]) true)
  ∧ Session.train_step Session.x_train_tensor Session.y_train_tensor w1
    = Some (17%Q, w2)
  ∧ heap w2 !! Session.weight = Some (Tensor [0%Q] (Some [(-26)%Q]) true)
  ∧ heap w2 !! Session.bias = Some (Tensor [0%Q] (Some [(-16)%Q]) true).
Proof. split_and!; vm_compute; reflexivity. Qed.

(** * The theorems at work on the session *)

Import Session.

Example after_backward_is_reached :
  (loss ← linear_loss a b x_train_tensor y_train_tensor manual_loss (heap start);
   loss_backward loss start) = Some ((), after_backward).
Proof. vm_compute. reflexivity. Qed.

Example train_step_on_start :
  make_train_step manual_model loss_fn optimizer x_train_tensor y_train_tensor start
  = Some (17%Q,
          {| heap := <[a := Tensor [4 # 5] (Some [0%Q]) true]> (
                     <[b := Tensor [13 # 10] (Some [0%Q]) true]> (heap start));
             modes := {[10 := true]};
             trace := [EvTrain; EvForward; EvLoss; EvBackward; EvStep; EvZeroGrad] |}).
Proof. vm_compute. reflexivity. Qed.

Lemma make_train_step_cycle_witness :
  let w' := exec (make_train_step (ManualLinearRegression 10 a b)
                    (MSELoss ReductionMean) (SGD [a; b] lr)
                    x_train_tensor y_train_tensor) start in
  make_train_step (ManualLinearRegression 10 a b) (MSELoss ReductionMean)
    (SGD [a; b] lr) x_train_tensor y_train_tensor start = Some (17%Q, w')
  ∧ modes w' !! 10 = Some true
  ∧ modes w' !! 11 = modes start !! 11
  ∧ (∃ h, h !! a = Some (Tensor [0%Q] (Some [(-8)%Q]) true)
          ∧ h !! b = Some (Tensor [0%Q] (Some [(-13)%Q]) true)
          ∧ h !! weight = Some (Tensor [0%Q] None true)
          ∧ h !! x_train_tensor = Some (Tensor [1%Q; 2%Q] None false)
          ∧ data <$> heap w' !! a = data <$> sgd_step [a; b] lr h !! a
          ∧ data <$> heap w' !! b = data <$> sgd_step [a; b] lr h !! b)
  ∧ (∀ t, heap w' !! a = Some t → cleared t)
  ∧ (∀ t, heap w' !! b = Some t → cleared t)
  ∧ trace w' = [EvTrain; EvForward; EvLoss; EvBackward; EvStep; EvZeroGrad].
Proof.
  intros w'.
  assert (Hrun : make_train_step (ManualLinearRegression 10 a b)
                   (MSELoss ReductionMean) (SGD [a; b] lr)
                   x_train_tensor y_train_tensor start = Some (17%Q, w'))
    by (vm_compute; reflexivity).
  split; [exact Hrun|].
  destruct (make_train_step_cycle (ManualLinearRegression 10 a b)
              (MSELoss ReductionMean) (SGD [a; b] lr)
              x_train_tensor y_train_tensor start) as [_ Hcycle].
  destruct (Hcycle _ _ Hrun)
    as (tx & ty & yhat & loss & h & Hx & Hy & Hf & Hloss & _ & _ & Hin & Hout
        & Hgrad & Hdata & _ & Hclear & _ & Htrace).
  vm_compute in Hx. injection Hx as <-.
  vm_compute in Hy. injection Hy as <-.
  match type of Hf with ?e = _ =>
    let t := eval hnf in e in change (t = Some yhat) in Hf end.
  injection Hf as <-.
  match type of Hloss with ?e = _ =>
    let t := eval hnf in e in change (t = Some loss) in Hloss end.
  injection Hloss as <-.
  split_and!.
  - apply Hin. repeat constructor.
  - apply Hout. apply (bool_decide_unpack (11 ∉ [10])). vm_compute. exact I.
  - exists h. split_and!.
    + rewrite (Hgrad a). vm_compute. reflexivity.
    + rewrite (Hgrad b). vm_compute. reflexivity.
    + rewrite (Hgrad weight). vm_compute. reflexivity.
    + rewrite (Hgrad x_train_tensor). vm_compute. reflexivity.
    + apply (Hdata a).
    + apply (Hdata b).
  - intros t. apply Hclear. repeat constructor.
  - intros t. apply Hclear. repeat constructor.
  - exact Htrace.
Defined.

Lemma MSELoss_mean_is_manual_loss_witness :
  length (value labels) = length (value predictions)
  ∧ (∃ loss,
       MSELoss ReductionMean labels predictions = Some loss
       ∧ manual_loss labels predictions = Some loss
       ∧ value loss = [13 # 2])
  ∧ (λ r : list (list Q) * world Q, (r.1, heap r.2)) <$>
      cell6 a b x_train_tensor y_train_tensor lr n_epochs start
    = (λ r : list (list Q) * world Q, (r.1, heap r.2)) <$>
      cell4 a b x_train_tensor y_train_tensor lr n_epochs start.
Proof.
  split; [reflexivity|].
  exact (MSELoss_mean_is_manual_loss labels predictions a b x_train_tensor
           y_train_tensor lr n_epochs start eq_refl).
Defined.

Example second_backward_is_reached :
  (r ← cell4 a b x_train_tensor y_train_tensor lr 1 start;
   loss ← linear_loss a b x_train_tensor y_train_tensor manual_loss (heap r.2);
   loss_backward loss r.2) = Some ((), second_backward).
Proof. vm_compute. reflexivity. Qed.


(** The gradients of [Float32.after_backward] are those of the first
    backward pass from [Float32.start]. *)
Example float32_after_backward_is_reached :
  (loss ← linear_loss a b x_train_tensor y_train_tensor manual_loss
            (heap Float32.start);
   loss_backward loss Float32.start) = Some ((), Float32.after_backward).
Proof. vm_compute. reflexivity. Qed.


Lemma ManualLinearRegression_forward_witness :
  heap at_cell18 !! a = Some (Tensor [21 # 20] (Some [0%Q]) true)
  ∧ heap at_cell18 !! b = Some (Tensor [171 # 100] (Some [0%Q]) true)
  ∧ ∃ yhat w',
      call manual_model predictions at_cell18 = Some (yhat, w')
      ∧ value yhat = map (λ xi, fadd (21 # 20) (fmul (171 # 100) xi)) [1%Q; 2%Q]
      ∧ heap w' = heap at_cell18.
Proof.
  split; [vm_compute; reflexivity|].
  split; [vm_compute; reflexivity|].
  apply (ManualLinearRegression_forward 10 a b
           (Tensor [21 # 20] (Some [0%Q]) true) (Tensor [171 # 100] (Some [0%Q]) true));
    vm_compute; reflexivity.
Defined.

Lemma sgd_step_updates_each_parameter_once_witness :
  NoDup [a; b]
  ∧ ∃ w', step (SGD [a; b] lr) after_backward = Some ((), w')
      ∧ heap w' !! a = Some (Tensor [4 # 5] (Some [(-8)%Q]) true)
      ∧ heap w' !! b = Some (Tensor [13 # 10] (Some [(-13)%Q]) true)
      ∧ heap w' !! weight = heap after_backward !! weight.
Proof.
  assert (Hnd : NoDup [a; b]) by (apply (bool_decide_unpack (NoDup [a; b])); vm_compute; exact I).
  split; [exact Hnd|].
  destruct (sgd_step_updates_each_parameter_once [a; b] lr after_backward Hnd)
    as (w' & Hstep & _ & Hgrad & _ & Hout).
  exists w'. split; [exact Hstep|]. split_and!.
  - apply (Hgrad a (Tensor [0%Q] (Some [(-8)%Q]) true) [(-8)%Q]);
      [repeat constructor|vm_compute; reflexivity|reflexivity].
  - apply (Hgrad b (Tensor [0%Q] (Some [(-13)%Q]) true) [(-13)%Q]);
      [repeat constructor|vm_compute; reflexivity|reflexivity].
  - apply Hout. apply (bool_decide_unpack (weight ∉ [a; b])). vm_compute. exact I.
Defined.

Lemma train_step_frame_witness :
  let w' := exec (make_train_step manual_model loss_fn (SGD [a; b] lr)
                    x_train_tensor y_train_tensor) at_cell18 in
  make_train_step manual_model loss_fn (SGD [a; b] lr)
    x_train_tensor y_train_tensor at_cell18 = Some (677 # 4000, w')
  ∧ heap w' !! x_train_tensor = Some (Tensor [1%Q; 2%Q] None false)
  ∧ heap w' !! y_train_tensor = Some (Tensor [3%Q; 5%Q] None false)
  ∧ data <$> heap w' !! weight = data <$> heap at_cell18 !! weight.
Proof.
  intros w'.
  assert (Hrun : make_train_step manual_model loss_fn (SGD [a; b] lr)
                   x_train_tensor y_train_tensor at_cell18 = Some (677 # 4000, w'))
    by (vm_compute; reflexivity).
  split; [exact Hrun|].
  destruct (train_step_frame _ _ _ _ _ _ _ _ Hrun)
    as (loss & hb & _ & _ & _ & _ & _ & _ & _ & _ & Hsgd).
  destruct (Hsgd [a; b] lr eq_refl) as (_ & _ & Hout & Hplain).
  split_and!.
  - apply Hplain; [vm_compute; reflexivity|reflexivity..].
  - apply Hplain; [vm_compute; reflexivity|reflexivity..].
  - apply Hout. apply (bool_decide_unpack (weight ∉ [a; b])). vm_compute. exact I.
Defined.

(** C7, with labels that require grad: [train_step(x, y)] leaves [y] holding
    the gradient of the loss with respect to it. *)
Lemma train_step_input_receives_gradient :
  ∃ v w',
    heap labels_require_grad !! y_train_tensor = Some (Tensor [3%Q; 5%Q] None true)
    ∧ make_train_step manual_model loss_fn (SGD [a; b] lr)
        x_train_tensor y_train_tensor labels_require_grad = Some (v, w')
    ∧ heap w' !! y_train_tensor = Some (Tensor [3%Q; 5%Q] (Some [3%Q; 5%Q]) true)
    ∧ heap w' !! y_train_tensor ≠ heap labels_require_grad !! y_train_tensor.
Proof.
  eexists _, _. split_and!; try (vm_compute; reflexivity).
  vm_compute. discriminate.
Qed.

Lemma train_step_returns_entry_loss_witness :
  let w' := exec (cell18_loop manual_model loss_fn optimizer
                    x_train_tensor y_train_tensor n_epochs) start in
  cell18_loop manual_model loss_fn optimizer x_train_tensor y_train_tensor
    n_epochs start = Some ([17%Q; 337 # 200], w')
  ∧ length [17%Q; 337 # 200] = n_epochs
  ∧ ∃ wi wi' loss,
      cell18_loop manual_model loss_fn optimizer x_train_tensor y_train_tensor
        1 start = Some ([17%Q], wi)
      ∧ make_train_step manual_model loss_fn optimizer x_train_tensor
          y_train_tensor wi = Some (337 # 200, wi')
      ∧ loss_at manual_model loss_fn x_train_tensor y_train_tensor (heap wi)
        = Some loss
      ∧ item loss = Some (337 # 200).
Proof.
  intros w'.
  assert (Hrun : cell18_loop manual_model loss_fn optimizer x_train_tensor
                   y_train_tensor n_epochs start = Some ([17%Q; 337 # 200], w'))
    by (vm_compute; reflexivity).
  split; [exact Hrun|].
  destruct (train_step_returns_entry_loss _ _ _ _ _ _ _ _ _ Hrun) as [Hlen Hat].
  split; [exact Hlen|]. exact (Hat 1 (337 # 200) eq_refl).
Defined.

Lemma training_loops_deterministic_witness :
  let L := (.∈ [a; b; weight; bias; x_train_tensor; y_train_tensor]) in
  let same := λ w1' w2' : world Q, agree L (heap w1') (heap w2') in
  agree L (heap start) (heap elsewhere)
  ∧ sim same eq
      (cell4 a b x_train_tensor y_train_tensor lr n_epochs start)
      (cell4 a b x_train_tensor y_train_tensor lr n_epochs elsewhere)
  ∧ sim same eq
      (cell6 a b x_train_tensor y_train_tensor lr n_epochs start)
      (cell6 a b x_train_tensor y_train_tensor lr n_epochs elsewhere)
  ∧ sim same eq
      (cell10 10 a b x_train_tensor y_train_tensor lr n_epochs start)
      (cell10 10 a b x_train_tensor y_train_tensor lr n_epochs elsewhere)
  ∧ sim same eq
      (cell18_loop model loss_fn optimizer x_train_tensor y_train_tensor
         n_epochs start)
      (cell18_loop model loss_fn optimizer x_train_tensor y_train_tensor
         n_epochs elsewhere).
Proof.
  intros L same.
  assert (E : agree L (heap start) (heap elsewhere)).
  { intros l Hl. repeat (apply elem_of_cons in Hl as [->|Hl]);
      [vm_compute; reflexivity..|by apply elem_of_nil in Hl]. }
  split; [exact E|].
  exact (training_loops_deterministic 10 11 12 a b weight bias x_train_tensor
           y_train_tensor lr n_epochs start elsewhere E).
Defined.

(** * The further properties at work on the session *)

Lemma Q_add_comm (p q : Q) : fadd p q = fadd q p.
Proof. simpl. apply Qred_complete. ring. Qed.

Lemma Q_mul_comm (p q : Q) : fmul p q = fmul q p.
Proof. simpl. apply Qred_complete. ring. Qed.

Lemma start_parameter (t : tensor Q) :
  t = Tensor [0%Q] None true → scalar_parameter t.
Proof. intros ->. split_and!; [reflexivity..|]. intros g. discriminate. Qed.

Example train_step_runs_on_start :
  is_Some (train_step x_train_tensor y_train_tensor start)
  ∧ ¬ is_Some (make_train_step model (MSELoss ReductionNone) optimizer
                 x_train_tensor y_train_tensor start).
Proof.
  split.
  - vm_compute. by eexists.
  - vm_compute. by intros [? [=]].
Qed.

Lemma train_step_loop_trace_witness :
  let w' := exec (cell18_loop manual_model loss_fn optimizer
                    x_train_tensor y_train_tensor n_epochs) start in
  cell18_loop manual_model loss_fn optimizer x_train_tensor y_train_tensor
    n_epochs start = Some ([17%Q; 337 # 200], w')
  ∧ trace w' = trace start ++ concat (replicate n_epochs
                 [EvTrain; EvForward; EvLoss; EvBackward; EvStep; EvZeroGrad]).
Proof.
  intros w'.
  assert (Hrun : cell18_loop manual_model loss_fn optimizer x_train_tensor
                   y_train_tensor n_epochs start = Some ([17%Q; 337 # 200], w'))
    by (vm_compute; reflexivity).
  split; [exact Hrun|].
  exact (train_step_loop_trace _ _ _ _ _ _ _ _ _ Hrun).
Defined.

Lemma sgd_step_without_gradients_witness :
  (∀ p t, p ∈ [a; b] → heap start !! p = Some t → grad t = None)
  ∧ (∃ w', step (SGD [a; b] lr) start = Some ((), w') ∧ heap w' = heap start)
  ∧ (∃ w', zero_grad (SGD [a; b] lr) start = Some ((), w') ∧ heap w' = heap start)
  ∧ (a ∈ [a; b] → manual_update lr a b (heap start) = None).
Proof.
  assert (Hnone : ∀ p t, p ∈ [a; b] → heap start !! p = Some t → grad t = None).
  { intros p t Hp Ht. repeat (apply elem_of_cons in Hp as [->|Hp]);
      [vm_compute in Ht; by simplify_eq..|by apply elem_of_nil in Hp]. }
  split; [exact Hnone|].
  exact (sgd_step_without_gradients [a; b] lr a b start Hnone).
Defined.

Lemma train_step_loop_frame_witness :
  let w' := exec (cell18_loop manual_model loss_fn (SGD [a; b] lr)
                    x_train_tensor y_train_tensor n_epochs) start in
  cell18_loop manual_model loss_fn (SGD [a; b] lr) x_train_tensor y_train_tensor
    n_epochs start = Some ([17%Q; 337 # 200], w')
  ∧ data <$> heap w' !! weight = data <$> heap start !! weight
  ∧ requires_grad <$> heap w' !! a = requires_grad <$> heap start !! a
  ∧ heap w' !! x_train_tensor = Some (Tensor [1%Q; 2%Q] None false).
Proof.
  intros w'.
  assert (Hrun : cell18_loop manual_model loss_fn (SGD [a; b] lr) x_train_tensor
                   y_train_tensor n_epochs start = Some ([17%Q; 337 # 200], w'))
    by (vm_compute; reflexivity).
  split; [exact Hrun|].
  destruct (train_step_loop_frame _ _ _ _ _ _ _ _ _ _ Hrun) as (Hd & Hr & Hx).
  split_and!.
  - apply Hd. apply (bool_decide_unpack (weight ∉ [a; b])). vm_compute. exact I.
  - apply Hr.
  - apply Hx; [vm_compute; reflexivity|reflexivity..].
Defined.

Lemma unmanaged_model_never_trains_witness :
  let w' := exec (cell18_loop (Sequential 11 [Linear 12 weight bias]) loss_fn
                    (SGD [a; b] lr) x_train_tensor y_train_tensor n_epochs)
              at_cell18 in
  ((weight ∉ [a; b]) ∧ (bias ∉ [a; b])
   ∧ (x_train_tensor ∉ [a; b]) ∧ (y_train_tensor ∉ [a; b]))
  ∧ cell18_loop (Sequential 11 [Linear 12 weight bias]) loss_fn (SGD [a; b] lr)
      x_train_tensor y_train_tensor n_epochs at_cell18 = Some ([17%Q; 17%Q], w')
  ∧ data <$> heap w' !! weight = data <$> heap at_cell18 !! weight
  ∧ data <$> heap w' !! bias = data <$> heap at_cell18 !! bias
  ∧ ∀ i j v v', [17%Q; 17%Q] !! i = Some v → [17%Q; 17%Q] !! j = Some v' → v = v'.
Proof.
  intros w'.
  assert (Hw : weight ∉ [a; b])
    by (apply (bool_decide_unpack (weight ∉ [a; b])); vm_compute; exact I).
  assert (Hb : bias ∉ [a; b])
    by (apply (bool_decide_unpack (bias ∉ [a; b])); vm_compute; exact I).
  assert (Hx : x_train_tensor ∉ [a; b])
    by (apply (bool_decide_unpack (x_train_tensor ∉ [a; b])); vm_compute; exact I).
  assert (Hy : y_train_tensor ∉ [a; b])
    by (apply (bool_decide_unpack (y_train_tensor ∉ [a; b])); vm_compute; exact I).
  assert (Hrun : cell18_loop (Sequential 11 [Linear 12 weight bias]) loss_fn
                   (SGD [a; b] lr) x_train_tensor y_train_tensor n_epochs at_cell18
                 = Some ([17%Q; 17%Q], w'))
    by (vm_compute; reflexivity).
  split; [by split_and!|]. split; [exact Hrun|].
  exact (unmanaged_model_never_trains 11 12 weight bias x_train_tensor
           y_train_tensor loss_fn [a; b] lr n_epochs at_cell18 w' [17%Q; 17%Q]
           Hw Hb Hx Hy Hrun).
Defined.

Lemma cell10_completes_witness :
  (heap start !! a = Some (Tensor [0%Q] None true)
   ∧ scalar_parameter (Tensor [0%Q] None true)
   ∧ heap start !! b = Some (Tensor [0%Q] None true)
   ∧ heap start !! x_train_tensor = Some (Tensor [1%Q; 2%Q] None false)
   ∧ plain_data (Tensor [1%Q; 2%Q] None false)
   ∧ heap start !! y_train_tensor = Some (Tensor [3%Q; 5%Q] None false)
   ∧ plain_data (Tensor [3%Q; 5%Q] None false))
  ∧ ∃ losses w',
      cell10 10 a b x_train_tensor y_train_tensor lr 7 start = Some (losses, w')
      ∧ length losses = 7
      ∧ (∃ ta', heap w' !! a = Some ta' ∧ scalar_parameter ta')
      ∧ (∃ tb', heap w' !! b = Some tb' ∧ scalar_parameter tb')
      ∧ heap w' !! x_train_tensor = Some (Tensor [1%Q; 2%Q] None false)
      ∧ heap w' !! y_train_tensor = Some (Tensor [3%Q; 5%Q] None false).
Proof.
  assert (Pa : scalar_parameter (Tensor [0%Q] None true))
    by (by apply start_parameter).
  split.
  { split_and!; try (vm_compute; reflexivity); try exact Pa; by split. }
  apply (cell10_completes 10 a b x_train_tensor y_train_tensor lr 7 start
           (Tensor [0%Q] None true) (Tensor [0%Q] None true)
           (Tensor [1%Q; 2%Q] None false) (Tensor [3%Q; 5%Q] None false));
    try exact Pa; try (by split); vm_compute; reflexivity.
Defined.

Lemma cell10_gradients_end_cleared_witness :
  0 < n_epochs
  ∧ ∃ losses w' ta' tb',
      cell10 10 a b x_train_tensor y_train_tensor lr n_epochs start
      = Some (losses, w')
      ∧ heap w' !! a = Some ta' ∧ cleared ta'
      ∧ heap w' !! b = Some tb' ∧ cleared tb'.
Proof.
  assert (Pa : scalar_parameter (Tensor [0%Q] None true))
    by (by apply start_parameter).
  split; [unfold n_epochs; lia|].
  apply (cell10_gradients_end_cleared 10 a b x_train_tensor y_train_tensor lr
           n_epochs start
           (Tensor [0%Q] None true) (Tensor [0%Q] None true)
           (Tensor [1%Q; 2%Q] None false) (Tensor [3%Q; 5%Q] None false));
    try exact Pa; try (by split); try (unfold n_epochs; lia); vm_compute; reflexivity.
Defined.

Lemma mismatched_columns_raise_witness :
  (length [1%Q; 2%Q] ≠ length [3%Q; 5%Q; 7%Q]
   ∧ length [1%Q; 2%Q] ≠ 1 ∧ length [3%Q; 5%Q; 7%Q] ≠ 1 ∧ 0 < n_epochs)
  ∧ make_train_step (ManualLinearRegression 10 a b) (MSELoss ReductionSum)
      optimizer x_train_tensor y_train_tensor mismatched = None
  ∧ cell4 a b x_train_tensor y_train_tensor lr n_epochs mismatched = None
  ∧ cell6 a b x_train_tensor y_train_tensor lr n_epochs mismatched = None
  ∧ cell10 10 a b x_train_tensor y_train_tensor lr n_epochs mismatched = None.
Proof.
  split; [simpl; unfold n_epochs; lia|].
  apply (mismatched_columns_raise 10 a b x_train_tensor y_train_tensor ReductionSum
           optimizer lr n_epochs mismatched
           (Tensor [0%Q] None true) (Tensor [0%Q] None true)
           (Tensor [1%Q; 2%Q] None false) (Tensor [3%Q; 5%Q; 7%Q] None false));
    try (vm_compute; reflexivity); simpl; unfold n_epochs; lia.
Defined.

Lemma linear_layer_trains_like_manual_witness :
  ((∀ p q : Q, fadd p q = fadd q p) ∧ (∀ p q : Q, fmul p q = fmul q p)
   ∧ weight ≠ bias)
  ∧ (λ r : list (list Q) * world Q, (r.1, heap r.2)) <$>
      cell10_loop (Sequential 11 [Linear 12 weight bias]) (MSELoss ReductionMean)
        (SGD (parameters (Sequential 11 [Linear 12 weight bias])) lr)
        x_train_tensor y_train_tensor n_epochs start
    = (λ r : list (list Q) * world Q, (r.1, heap r.2)) <$>
      cell10 10 bias weight x_train_tensor y_train_tensor lr n_epochs start.
Proof.
  split; [split_and!; [exact Q_add_comm|exact Q_mul_comm|discriminate]|].
  apply (linear_layer_trains_like_manual 11 12 10 weight bias x_train_tensor
           y_train_tensor lr n_epochs start
           (Tensor [1%Q; 2%Q] None false) (Tensor [3%Q; 5%Q] None false)
           Q_add_comm Q_mul_comm);
    [discriminate|vm_compute; reflexivity|reflexivity
    |vm_compute; reflexivity|reflexivity].
Defined.

Lemma train_step_loop_training_mode_witness :
  let w' := exec (cell18_loop (Sequential 11 [Linear 12 weight bias]) loss_fn
                    (SGD [a; b] lr) x_train_tensor y_train_tensor n_epochs)
              at_cell18 in
  (cell18_loop (Sequential 11 [Linear 12 weight bias]) loss_fn (SGD [a; b] lr)
     x_train_tensor y_train_tensor n_epochs at_cell18 = Some ([17%Q; 17%Q], w')
   ∧ 0 < n_epochs)
  ∧ modes w' !! 11 = Some true
  ∧ modes w' !! 12 = Some true
  ∧ modes w' !! 10 = modes at_cell18 !! 10.
Proof.
  intros w'.
  assert (Hrun : cell18_loop (Sequential 11 [Linear 12 weight bias]) loss_fn
                   (SGD [a; b] lr) x_train_tensor y_train_tensor n_epochs at_cell18
                 = Some ([17%Q; 17%Q], w'))
    by (vm_compute; reflexivity).
  assert (Hn : 0 < n_epochs) by (unfold n_epochs; lia).
  split; [by split|].
  destruct (train_step_loop_training_mode _ _ _ _ _ _ _ _ _ Hrun) as [Hin Hout].
  split_and!.
  - apply (Hin Hn). simpl. repeat constructor.
  - apply (Hin Hn). simpl. repeat constructor.
  - apply Hout. simpl.
    apply (bool_decide_unpack (10 ∉ [11; 12])). vm_compute. exact I.
Defined.

Example epochs_compose_on_start :
  cell4 a b x_train_tensor y_train_tensor lr 3 start
  = (r1 ← cell4 a b x_train_tensor y_train_tensor lr 1 start;
     r2 ← cell4 a b x_train_tensor y_train_tensor lr 2 r1.2;
     Some (r1.1 ++ r2.1, r2.2)).
Proof. vm_compute. reflexivity. Qed.
